(** * The [run] command of the command-line tool

    A shallow embedding of [RunCommand.run] (the command that boots the
    local development server, waits for it, sends one HTTP request,
    prints what comes back and terminates the server) together with the
    properties its specification states about it.

    Conventions of the embedding.

    - A JavaScript string is a [string]: a sequence of 8-bit character
      codes.  Case mapping ([toLowerCase], [toUpperCase]) is the ASCII one;
      the method names the command accepts are ASCII.
    - A plain JavaScript object is an association list in the order
      [Object.keys] enumerates its own properties.
    - The command is asynchronous.  Everything it does to the outside
      world is recorded, in order, in a list of [effect]s; everything the
      outside world does to it (the package loader, the child's output,
      timers, the process killer, the HTTP client) is read from a [World].
    - What the host platform provides ([JSON.parse], [JSON.stringify] of an
      arbitrary value, number formatting, the colouring functions) is a
      [Host]. *)

From Stdlib Require Import String Ascii List ZArith Bool Lia DecimalString.
Import ListNotations.

Local Open Scope list_scope.
Local Open Scope string_scope.

(** ** JavaScript strings *)

Module JsString.

(** The line feed, written ['\n'] in the source. *)
Definition nl : string := String "010"%char EmptyString.

(** The double-quote character. *)
Definition dquote : string := String "034"%char EmptyString.

Definition is_upper (c : ascii) : bool :=
  let n := nat_of_ascii c in Nat.leb 65 n && Nat.leb n 90.

Definition is_lower (c : ascii) : bool :=
  let n := nat_of_ascii c in Nat.leb 97 n && Nat.leb n 122.

Definition lower_char (c : ascii) : ascii :=
  if is_upper c then ascii_of_nat (nat_of_ascii c + 32) else c.

Definition upper_char (c : ascii) : ascii :=
  if is_lower c then ascii_of_nat (nat_of_ascii c - 32) else c.

Fixpoint map_chars (f : ascii -> ascii) (s : string) : string :=
  match s with
  | EmptyString => EmptyString
  | String c r => String (f c) (map_chars f r)
  end.

(** [s.toLowerCase()] and [s.toUpperCase()]. *)
Definition toLowerCase : string -> string := map_chars lower_char.
Definition toUpperCase : string -> string := map_chars upper_char.

(** [s.startsWith(p)]. *)
Fixpoint startsWith (s p : string) {struct p} : bool :=
  match p with
  | EmptyString => true
  | String a p' =>
      match s with
      | EmptyString => false
      | String b s' => Ascii.eqb a b && startsWith s' p'
      end
  end.

(** [s.slice(n)] for a non-negative [n]. *)
Fixpoint slice (n : nat) (s : string) : string :=
  match n with
  | O => s
  | S k => match s with
           | EmptyString => EmptyString
           | String _ r => slice k r
           end
  end.

(** [s.includes(p)]. *)
Fixpoint includes (s p : string) : bool :=
  startsWith s p
  || match s with
     | EmptyString => false
     | String _ r => includes r p
     end.

(** [s.split('\n')]: the pieces between line feeds; never empty. *)
Fixpoint split_lines (s : string) : list string :=
  match s with
  | EmptyString => [EmptyString]
  | String c r =>
      if Ascii.eqb c "010"%char then EmptyString :: split_lines r
      else match split_lines r with
           | [] => [String c EmptyString]
           | l :: ls => String c l :: ls
           end
  end.

(** [s.split('\n')[0]]. *)
Definition first_line (s : string) : string :=
  match split_lines s with
  | [] => EmptyString
  | l :: _ => l
  end.

(** [a.join(sep)] on an array of strings. *)
Fixpoint join (sep : string) (a : list string) : string :=
  match a with
  | [] => EmptyString
  | [x] => x
  | x :: r => x ++ sep ++ join sep r
  end.

(** A string is falsy exactly when it is empty. *)
Definition truthy (s : string) : bool :=
  match s with EmptyString => false | _ => true end.

End JsString.

Import JsString.

(** ** Plain objects *)

Module JsObject.

(** Own enumerable string-keyed properties, in enumeration order. *)
Definition t (A : Type) : Type := list (string * A).

Definition keys {A} (o : t A) : list string := map fst o.

(** [o[k]]: [None] stands for [undefined]. *)
Fixpoint get {A} (k : string) (o : t A) : option A :=
  match o with
  | [] => None
  | (k', v) :: r => if String.eqb k k' then Some v else get k r
  end.

Fixpoint put {A} (k : string) (v : A) (o : t A) : t A :=
  match o with
  | [] => [(k, v)]
  | (k', v') :: r =>
      if String.eqb k k' then (k', v) :: r else (k', v') :: put k v r
  end.

(** [o[k] = v] for a primitive [v]: an existing property keeps its
    place, a new one goes last, and assigning a primitive to
    [__proto__] changes nothing. *)
Definition set {A} (k : string) (v : A) (o : t A) : t A :=
  if String.eqb k "__proto__" then o else put k v o.

(** What an object built by property assignment looks like: its keys
    are distinct and none of them is [__proto__]. *)
Definition plain {A} (o : t A) : Prop :=
  NoDup (keys o) /\ ~ In "__proto__" (keys o).

End JsObject.

(** ** Errors *)

(** Why the engine raised a [TypeError]. *)
Inductive type_error : Type :=
| AssignmentToConstant (variable : string)
| ReadOfUndefined (property : string)
| ReadOfNull (property : string)
| NotAFunction (property : string)
| NotPrimitive.

(** What an [await] or a statement of [run] can throw. *)
Inductive js_error : Type :=
| Error (message : string)              (* [throw new Error(message)] *)
| TypeError (why : type_error)          (* raised by the engine *)
| SyntaxError                           (* raised by [JSON.parse] *)
| Rejection (reason : string).          (* a collaborator's promise rejected *)

(** ** Command-line parameters *)

Record Params : Type := {
  args : list string;
  flags : JsObject.t (list string);
  vflags : JsObject.t (list string)
}.

(** [a[0]]. *)
Definition at0 {A} (a : list A) : option A :=
  match a with [] => None | x :: _ => Some x end.

(** [x || d] where [x] is a string or [undefined]. *)
Definition or_string (x : option string) (d : string) : string :=
  match x with
  | Some s => if truthy s then s else d
  | None => d
  end.

(** [x || []] where [x] is an array or [undefined]. *)
Definition or_empty {A} (x : option (list A)) : list A :=
  match x with Some a => a | None => [] end.

Definition port : Z := 8199.

(** The milliseconds the watchdog sleeps; [WatchdogWake] below is the
    moment they have elapsed. *)
Definition timeout : Z := 5000.

(** The text [port] interpolates to in a template string. *)
Definition port_text : string := "8199".

Definition url : string := "http://localhost:" ++ port_text.

Definition supported_methods : list string :=
  ["get"; "post"; "put"; "delete"; "del"].

(** [a.indexOf(x) === -1] is false. *)
Definition is_supported (m : string) : bool :=
  existsb (String.eqb m) supported_methods.

(** [((params.flags['m'] || [])[0] || 'get').toLowerCase()]. *)
Definition method_of (p : Params) : string :=
  toLowerCase (or_string (at0 (or_empty (JsObject.get "m" (flags p)))) "get").

Definition unsupported_message (m : string) : string :=
  "Method " ++ dquote ++ m ++ dquote ++ " not supported.".

(** The method check.  [method] is declared [const], so the assignment
    [method = 'delete'] in the branch for ['del'] throws. *)
Definition check_method (p : Params) : js_error + string :=
  let method := method_of p in
  if negb (is_supported method) then inl (Error (unsupported_message method))
  else if String.eqb method "del"
       then inl (TypeError (AssignmentToConstant "method"))
       else inr method.

(** The [reduce] over [Object.keys(params.vflags)]. *)
Definition functionParams_of (v : JsObject.t (list string)) : JsObject.t string :=
  fold_left (fun acc kv => JsObject.set (fst kv) (join " " (snd kv)) acc) v [].

Definition missing_pathname_message : string :=
  "Please provide a pathname as the first argument." ++ nl ++
  "Use " ++ dquote ++ "/" ++ dquote ++ " to execute the root method (index.js)".

Definition invalid_pathname_message (p : string) : string :=
  "Invalid pathname: " ++ dquote ++ p ++ dquote.

(** [if (s.startsWith(c)) s = s.slice(1)]. *)
Definition strip_one (c : string) (s : string) : string :=
  if startsWith s c then slice 1 s else s.

(** The pathname check and the two strippings that follow it. *)
Definition normalize_pathname (pathname : string) : js_error + string :=
  if negb (truthy pathname) then inl (Error missing_pathname_message)
  else if startsWith pathname ".." then inl (Error (invalid_pathname_message pathname))
  else inr (strip_one "/" (strip_one "." pathname)).

(** What remains of the parameters once they are accepted. *)
Record Invocation : Type := {
  method : string;
  functionParams : JsObject.t string;
  pathname : string
}.

(** Everything [run] does between loading the package and spawning. *)
Definition validate (p : Params) : js_error + Invocation :=
  match check_method p with
  | inl e => inl e
  | inr m =>
      let fp := functionParams_of (vflags p) in
      match normalize_pathname (or_string (at0 (args p)) "") with
      | inl e => inl e
      | inr path => inr {| method := m; functionParams := fp; pathname := path |}
      end
  end.

(** ** JSON values and the host platform *)

(** What [JSON.parse] returns.  Numbers are IEEE doubles in JavaScript;
    the embedding leaves their type to the [Host]. *)
#[warnings="-register-all"]
Inductive JSValue (number : Type) : Type :=
| JNull
| JBool (b : bool)
| JNum (n : number)
| JStr (s : string)
| JArr (elements : list (JSValue number))
| JObj (fields : list (string * JSValue number)).

Arguments JNull {number}.
Arguments JBool {number} b.
Arguments JNum {number} n.
Arguments JStr {number} s.
Arguments JArr {number} elements.
Arguments JObj {number} fields.

(** The built-ins and the [colors/safe] functions [run] calls. *)
Class Host : Type := {
  number : Type;
  number_toString : number -> string;
  number_truthy : number -> bool;
  (** [JSON.parse(text)]; [None] when it throws a [SyntaxError]. *)
  JSON_parse : string -> option (JSValue number);
  (** [JSON.stringify(value, null, 2)]. *)
  JSON_stringify_indented : JSValue number -> string;
  grey : string -> string;
  yellow : string -> string;
  blue : string -> string;
  bold : string -> string;
  bold_green : string -> string
}.

(** The values of the host at hand. *)
Abbreviation value := (JSValue number).

(** ** [JSON.stringify] of an object whose values are strings *)

Module JsonText.

Definition hex_digit (n : nat) : ascii :=
  if Nat.ltb n 10 then ascii_of_nat (48 + n) else ascii_of_nat (87 + n).

(** The escape of one character inside a JSON string. *)
Definition escape_char (c : ascii) : string :=
  let n := nat_of_ascii c in
  if Nat.eqb n 8 then "\b"
  else if Nat.eqb n 9 then "\t"
  else if Nat.eqb n 10 then "\n"
  else if Nat.eqb n 12 then "\f"
  else if Nat.eqb n 13 then "\r"
  else if Nat.eqb n 34 then "\" ++ dquote
  else if Nat.eqb n 92 then "\\"
  else if Nat.ltb n 32
       then "\u00" ++ String (hex_digit (n / 16)) (String (hex_digit (n mod 16)) "")
       else String c "".

Fixpoint escape (s : string) : string :=
  match s with
  | EmptyString => EmptyString
  | String c r => escape_char c ++ escape r
  end.

Definition quote (s : string) : string := dquote ++ escape s ++ dquote.

(** [JSON.stringify(o)]. *)
Definition stringify (o : JsObject.t string) : string :=
  "{" ++ join "," (map (fun kv => quote (fst kv) ++ ":" ++ quote (snd kv)) o) ++ "}".

(** [JSON.stringify(o, null, 2)]. *)
Definition stringify_indented (o : JsObject.t string) : string :=
  match o with
  | [] => "{}"
  | _ => "{" ++ nl ++ "  "
         ++ join ("," ++ nl ++ "  ")
              (map (fun kv => quote (fst kv) ++ ": " ++ quote (snd kv)) o)
         ++ nl ++ "}"
  end.

End JsonText.

(** ** Effects, the outside world and the command's monad *)

(** A value of the query object handed to the HTTP client. *)
Inductive query_value : Type :=
| QString (s : string)
| QBool (b : bool).

(** What [run] does to the outside world. *)
Inductive effect : Type :=
| Spawn (port : Z)                                  (* [localServer.run] *)
| Kill (pid : Z)                                    (* [killProcess] *)
| Request (method url : string)
          (query : JsObject.t query_value) (body : string)  (* [io.request] *)
| Log (line : string).                              (* [console.log] *)

(** One frame of the response stream, as handed to the callback. *)
Record StreamEvent : Type := {
  id : string;
  event : string;
  data : string
}.

(** How the promise of [io.request] settles.  The frames are in the order
    the client delivered them to the callback. *)
Inductive io_result : Type :=
| IoRejects (e : js_error)
| IoResolves (frames : list StreamEvent) (statusCode : Z) (body : string).

(** What the event loop dispatches while [run] awaits the race.  The
    loop runs one callback at a time, to completion; a schedule lists the
    callbacks in the order they run.  That order is the world's: it
    depends on when the child writes, on the timers, and on how long the
    killer takes to confirm. *)
Inductive loop_event : Type :=
| StdoutData (message : string)        (* a chunk on the child's stdout *)
| WatchdogWake                         (* [sleep(timeout)] has elapsed *)
| PollerWake                           (* the pending [sleep(1)] has elapsed *)
| KillSettled (err : option js_error). (* the killer called back *)

Record World : Type := {
  (** How [loadPackage] settles. *)
  loadPackage : option js_error;
  (** [proc.pid] of the spawned child. *)
  pid : Z;
  (** What the event loop dispatches from the start of the race on. *)
  loop : list loop_event;
  (** How the HTTP request settles. *)
  response : io_result;
  (** How the [killProcess] call at the end of [run] settles. *)
  final_kill : option js_error
}.

(** How a computation ends: with a value, by throwing, or never, because
    the event loop has nothing left that would wake it. *)
Inductive completion (A : Type) : Type :=
| Value (a : A)
| Thrown (e : js_error)
| Unsettled.

Arguments Value {A} a.
Arguments Thrown {A} e.
Arguments Unsettled {A}.

(** A computation: the effects performed so far and how it ended. *)
Definition M (A : Type) : Type := (list effect * completion A)%type.

Definition ret {A} (a : A) : M A := ([], Value a).
Definition throw {A} (e : js_error) : M A := ([], Thrown e).
Definition perform (e : effect) : M unit := ([e], Value tt).

Definition bind {A B} (m : M A) (k : A -> M B) : M B :=
  match snd m with
  | Value a => ((fst m ++ fst (k a))%list, snd (k a))
  | Thrown e => (fst m, Thrown e)
  | Unsettled => (fst m, Unsettled)
  end.

Notation "x <- m ;; k" := (bind m (fun x => k))
  (at level 61, m at next level, right associativity).
Notation "m ;;; k" := (bind m (fun _ => k))
  (at level 61, right associativity).

(** [await] of a promise that settles with nothing or with an error. *)
Definition await (settled : option js_error) : M unit :=
  match settled with
  | None => ret tt
  | Some e => throw e
  end.

Definition lift {A} (r : js_error + A) : M A :=
  match r with
  | inl e => throw e
  | inr a => ret a
  end.

Fixpoint for_each {A} (f : A -> M unit) (l : list A) : M unit :=
  match l with
  | [] => ret tt
  | x :: r => f x ;;; for_each f r
  end.

(** ** The readiness gate *)

Definition timeout_message : string :=
  "Timed out waiting for development server." ++ nl ++
  "Are you sure you're not running another server on :" ++ port_text ++ "?" ++ nl ++
  "To kill any processes running on this port on a unix system, use:" ++ nl ++
  "$ lsof -ti :" ++ port_text ++ " | xargs kill -9".

(** Where the first racer (the watchdog) is while the race is on: before
    its [sleep(timeout)] has elapsed, or awaiting [killProcess]. *)
Inductive watchdog : Type := Sleeping | Killing.

(** The variables the two racers and the stdout listener share. *)
Record Gate : Type := {
  isConnected : bool;
  isTimedOut : bool;
  watchdog_at : watchdog
}.

Definition gate_start : Gate :=
  {| isConnected := false; isTimedOut := false; watchdog_at := Sleeping |}.

(** Whether a chunk of the child's output carries one of the two
    readiness lines. *)
Definition announces (message : string) : bool :=
  includes message ("*** Listening on localhost:" ++ port_text)
  || includes message ("Unable to spawn HTTP Workers, listening on port " ++ port_text).

(** The listener on [proc.stdout]. *)
Definition on_stdout (g : Gate) (message : string) : Gate :=
  if announces message
  then {| isConnected := true; isTimedOut := isTimedOut g; watchdog_at := watchdog_at g |}
  else g.

(** [await Promise.race([watchdog, poller])]: the event loop dispatches
    the events in turn until one of the two racers has settled.

    - The watchdog wakes once.  If [isConnected] holds it returns, which
      fulfils the race.  Otherwise it sets [isTimedOut], calls
      [killProcess] and awaits it; when the killer calls back it throws
      (the killer's error, or the timeout error), which rejects the race.
    - The poller wakes after each [sleep(1)].  It leaves its loop, and
      returns, as soon as [isConnected] or [isTimedOut] holds; that
      fulfils the race.
    - Whatever a racer does after the race has settled is not observed:
      a later rejection is discarded. *)
Fixpoint race (child : Z) (g : Gate) (events : list loop_event) : M unit :=
  match events with
  | [] => ([], Unsettled)
  | StdoutData message :: rest => race child (on_stdout g message) rest
  | WatchdogWake :: rest =>
      match watchdog_at g with
      | Sleeping =>
          if negb (isConnected g)
          then perform (Kill child) ;;;
               race child {| isConnected := isConnected g;
                             isTimedOut := true;
                             watchdog_at := Killing |} rest
          else ret tt
      | Killing => race child g rest
      end
  | PollerWake :: rest =>
      if negb (isConnected g) && negb (isTimedOut g)
      then race child g rest
      else ret tt
  | KillSettled err :: rest =>
      match watchdog_at g with
      | Killing => await err ;;; throw (Error timeout_message)
      | Sleeping => race child g rest
      end
  end.

(** ** The request *)

(** [(method === 'get' || method === 'delete') ? { ...functionParams } : {}]
    followed by [queryParams._debug = true]. *)
Definition queryParams_of (i : Invocation) : JsObject.t query_value :=
  JsObject.set "_debug" (QBool true)
    (if String.eqb (method i) "get" || String.eqb (method i) "delete"
     then map (fun kv => (fst kv, QString (snd kv))) (functionParams i)
     else []).

(** [(method === 'post' || method === 'put')
      ? JSON.stringify(functionParams) : '']. *)
Definition bodyParams_of (i : Invocation) : string :=
  if String.eqb (method i) "post" || String.eqb (method i) "put"
  then JsonText.stringify (functionParams i)
  else "".

Definition location (i : Invocation) : string := url ++ "/" ++ pathname i.

Definition request_of (i : Invocation) : effect :=
  Request (toUpperCase (method i)) (location i) (queryParams_of i) (bodyParams_of i).

(** [params.flags.v], an array when present, as a condition. *)
Definition verbose_of (p : Params) : bool :=
  match JsObject.get "v" (flags p) with Some _ => true | None => false end.

Section Run.

Context {host : Host}.

Definition parse (text : string) : M value :=
  match JSON_parse text with
  | Some v => ret v
  | None => throw SyntaxError
  end.

(** [json.split('\n')]. *)
Definition split_of (json : value) : M (list string) :=
  match json with
  | JStr s => ret (split_lines s)
  | JNull => throw (TypeError (ReadOfNull "split"))
  | _ => throw (TypeError (NotAFunction "split"))
  end.

Definition passthrough (colour : string -> string) (verbose : bool)
           (prefix : string) (text : string) : M unit :=
  json <- parse text ;;
  lines <- split_of json ;;
  for_each
    (fun line => perform (Log (colour ((if verbose then bold prefix else "") ++ line))))
    lines.

(** The callback given to [io.request]; [result] is the variable of
    [run] it assigns. *)
Definition callback (verbose : bool) (result : option value) (e : StreamEvent)
  : M (option value) :=
  if String.eqb (event e) "@response" then
    json <- parse (data e) ;; ret (Some json)
  else if String.eqb (event e) "@stdout" then
    passthrough grey verbose "stdout> " (data e) ;;; ret result
  else if String.eqb (event e) "@stderr" then
    passthrough yellow verbose "stderr> " (data e) ;;; ret result
  else
    perform (Log (blue (bold (event e ++ "> ") ++ data e))) ;;; ret result.

(** The client calls the callback once per frame, in the order of the
    frames.  An exception thrown by the callback ends the command with
    that exception. *)
Fixpoint deliver (verbose : bool) (result : option value)
         (frames : list StreamEvent) : M (option value) :=
  match frames with
  | [] => ret result
  | e :: rest =>
      result' <- callback verbose result e ;;
      deliver verbose result' rest
  end.

(** ** Reading the result *)

Definition has_own (name : string) (fields : list (string * value)) : bool :=
  match JsObject.get name fields with Some _ => true | None => false end.

(** [v.name] for the names [run] reads, which no prototype defines. *)
Definition property (name : string) (v : option value) : M (option value) :=
  match v with
  | None => throw (TypeError (ReadOfUndefined name))
  | Some JNull => throw (TypeError (ReadOfNull name))
  | Some (JObj fields) => ret (JsObject.get name fields)
  | Some _ => ret None
  end.

(** The conversion of a value to a string, as string concatenation
    and [Array.prototype.join] perform it. *)
Fixpoint ToString (v : value) : js_error + string :=
  match v with
  | JNull => inr "null"
  | JBool b => inr (if b then "true" else "false")
  | JNum n => inr (number_toString n)
  | JStr s => inr s
  | JArr elements =>
      let fix each (l : list value) : js_error + list string :=
        match l with
        | [] => inr []
        | x :: r =>
            match (match x with JNull => inr "" | _ => ToString x end) with
            | inl e => inl e
            | inr s => match each r with
                       | inl e => inl e
                       | inr ss => inr (s :: ss)
                       end
            end
        end in
      match each elements with
      | inl e => inl e
      | inr ss => inr (join "," ss)
      end
  | JObj fields =>
      if has_own "toString" fields then inl (TypeError NotPrimitive)
      else inr "[object Object]"
  end.

(** [v.toString()]. *)
Definition call_toString (v : option value) : M string :=
  match v with
  | None => throw (TypeError (ReadOfUndefined "toString"))
  | Some JNull => throw (TypeError (ReadOfNull "toString"))
  | Some (JObj fields) =>
      if has_own "toString" fields then throw (TypeError (NotAFunction "toString"))
      else ret "[object Object]"
  | Some v => lift (ToString v)
  end.

(** [text + v]. *)
Definition concat (text : string) (v : option value) : M string :=
  match v with
  | None => ret (text ++ "undefined")
  | Some v => s <- lift (ToString v) ;; ret (text ++ s)
  end.

(** A parsed value used as a condition. *)
Definition truthy_value (v : value) : bool :=
  match v with
  | JNull => false
  | JBool b => b
  | JNum n => number_truthy n
  | JStr s => truthy s
  | JArr _ | JObj _ => true
  end.

(** The message of the error thrown for a response with status 500. *)
Definition error_message (errorBody : string) : string :=
  let errorMessage :=
    if startsWith errorBody "Application Error:"
    then slice (String.length "Application Error: ") errorBody
    else errorBody in
  first_line errorMessage.

(** What the verbose flag adds before the result. *)
Definition report (i : Invocation) (result : option value) : M unit :=
  perform (Log (bold_green "location:  " ++ location i)) ;;;
  perform (Log (bold_green "method:    " ++ toUpperCase (method i))) ;;;
  status <- property "statusCode" result ;;
  line <- concat (bold_green "status:    ") status ;;
  perform (Log line) ;;;
  perform (Log (bold_green "arguments: ")) ;;;
  perform (Log (JsonText.stringify_indented (functionParams i))) ;;;
  perform (Log (bold_green "result:")).

(** What is printed last: the body of the result, indented when it is
    JSON that counts as true, verbatim otherwise. *)
Definition rendering (body : string) : string :=
  match JSON_parse body with
  | Some json => if truthy_value json then JSON_stringify_indented json else body
  | None => body
  end.

(** Everything [run] does once the request has settled. *)
Definition conclude (w : World) (verbose : bool) (i : Invocation)
           (result : option value) (statusCode : Z) (responseBody : string)
  : M unit :=
  if Z.eqb statusCode 500 then throw (Error (error_message responseBody))
  else
    b <- property "body" result ;;
    body <- call_toString b ;;
    perform (Kill (pid w)) ;;;
    await (final_kill w) ;;;
    (if verbose then report i result else ret tt) ;;;
    perform (Log (rendering body)).

(** [await io.request(...)] and what follows it. *)
Definition receive (w : World) (verbose : bool) (i : Invocation) : M unit :=
  match response w with
  | IoRejects e => throw e
  | IoResolves frames statusCode body =>
      result <- deliver verbose None frames ;;
      conclude w verbose i result statusCode body
  end.

(** [RunCommand.run]. *)
Definition run (w : World) (params : Params) : M unit :=
  await (loadPackage w) ;;;
  i <- lift (validate params) ;;
  perform (Spawn port) ;;;
  race (pid w) gate_start (loop w) ;;;
  perform (request_of i) ;;;
  receive w (verbose_of params) i.

End Run.

(** ** A host to run the command on

    Numbers are the integers; [JSON.parse] reads JSON whose numbers are
    integer literals and whose strings use the two-character escapes. *)

Module Sample.

Definition json : Type := JSValue Z.

Definition is_space (c : ascii) : bool :=
  let n := nat_of_ascii c in
  Nat.eqb n 32 || Nat.eqb n 9 || Nat.eqb n 10 || Nat.eqb n 13.

Fixpoint skip_space (s : string) : string :=
  match s with
  | String c r => if is_space c then skip_space r else s
  | EmptyString => s
  end.

Definition unescape (c : ascii) : option ascii :=
  let n := nat_of_ascii c in
  if Nat.eqb n 34 || Nat.eqb n 92 || Nat.eqb n 47 then Some c
  else if Ascii.eqb c "b" then Some "008"%char
  else if Ascii.eqb c "t" then Some "009"%char
  else if Ascii.eqb c "n" then Some "010"%char
  else if Ascii.eqb c "f" then Some "012"%char
  else if Ascii.eqb c "r" then Some "013"%char
  else None.

Definition push (c : ascii) (r : option (string * string)) : option (string * string) :=
  match r with
  | Some (s, rest) => Some (String c s, rest)
  | None => None
  end.

(** The characters of a string literal after its opening quote. *)
Fixpoint string_body (s : string) : option (string * string) :=
  match s with
  | EmptyString => None
  | String c r =>
      if Nat.eqb (nat_of_ascii c) 34 then Some (EmptyString, r)
      else if Nat.eqb (nat_of_ascii c) 92 then
        match r with
        | String e r' =>
            match unescape e with
            | Some c' => push c' (string_body r')
            | None => None
            end
        | EmptyString => None
        end
      else if Nat.ltb (nat_of_ascii c) 32 then None
      else push c (string_body r)
  end.

Definition is_digit (c : ascii) : bool :=
  let n := nat_of_ascii c in Nat.leb 48 n && Nat.leb n 57.

Fixpoint digits (acc : Z) (s : string) : Z * string :=
  match s with
  | String c r =>
      if is_digit c
      then digits (10 * acc + Z.of_nat (nat_of_ascii c - 48)) r
      else (acc, s)
  | EmptyString => (acc, s)
  end.

(** An integer literal: no leading zero, no fraction, no exponent. *)
Definition natural (s : string) : option (Z * string) :=
  match s with
  | String c r =>
      if negb (is_digit c) then None
      else if Ascii.eqb c "0" && match r with String d _ => is_digit d | _ => false end
      then None
      else
        let '(n, rest) := digits 0 s in
        match rest with
        | String d _ =>
            if Ascii.eqb d "." || Ascii.eqb d "e" || Ascii.eqb d "E"
            then None else Some (n, rest)
        | EmptyString => Some (n, rest)
        end
  | EmptyString => None
  end.

Definition integer (s : string) : option (Z * string) :=
  match s with
  | String c r =>
      if Ascii.eqb c "-"
      then match natural r with
           | Some (n, rest) => Some ((- n)%Z, rest)
           | None => None
           end
      else natural s
  | EmptyString => None
  end.

Fixpoint value_at (fuel : nat) (s : string) : option (json * string) :=
  match fuel with
  | O => None
  | S f =>
      let s := skip_space s in
      if startsWith s "null" then Some (JNull, slice 4 s)
      else if startsWith s "true" then Some (JBool true, slice 4 s)
      else if startsWith s "false" then Some (JBool false, slice 5 s)
      else match s with
           | String c r =>
               if Nat.eqb (nat_of_ascii c) 34 then
                 match string_body r with
                 | Some (t, rest) => Some (JStr t, rest)
                 | None => None
                 end
               else if Ascii.eqb c "[" then
                 match skip_space r with
                 | String d r' =>
                     if Ascii.eqb d "]" then Some (JArr [], r')
                     else match elements_at f r with
                          | Some (l, rest) => Some (JArr l, rest)
                          | None => None
                          end
                 | EmptyString => None
                 end
               else if Ascii.eqb c "{" then
                 match skip_space r with
                 | String d r' =>
                     if Ascii.eqb d "}" then Some (JObj [], r')
                     else match members_at f [] r with
                          | Some (l, rest) => Some (JObj l, rest)
                          | None => None
                          end
                 | EmptyString => None
                 end
               else match integer s with
                    | Some (n, rest) => Some (JNum n, rest)
                    | None => None
                    end
           | EmptyString => None
           end
  end

with elements_at (fuel : nat) (s : string) : option (list json * string) :=
  match fuel with
  | O => None
  | S f =>
      match value_at f s with
      | Some (v, rest) =>
          match skip_space rest with
          | String c r =>
              if Ascii.eqb c "]" then Some ([v], r)
              else if Ascii.eqb c "," then
                match elements_at f r with
                | Some (l, rest') => Some (v :: l, rest')
                | None => None
                end
              else None
          | EmptyString => None
          end
      | None => None
      end
  end

with members_at (fuel : nat) (seen : JsObject.t json) (s : string)
  : option (JsObject.t json * string) :=
  match fuel with
  | O => None
  | S f =>
      match skip_space s with
      | String q r =>
          if negb (Nat.eqb (nat_of_ascii q) 34) then None else
          match string_body r with
          | Some (k, rest) =>
              match skip_space rest with
              | String colon r' =>
                  if negb (Ascii.eqb colon ":") then None else
                  match value_at f r' with
                  | Some (v, rest') =>
                      let seen' := JsObject.put k v seen in
                      match skip_space rest' with
                      | String c r'' =>
                          if Ascii.eqb c "}" then Some (seen', r'')
                          else if Ascii.eqb c "," then members_at f seen' r''
                          else None
                      | EmptyString => None
                      end
                  | None => None
                  end
              | EmptyString => None
              end
          | None => None
          end
      | EmptyString => None
      end
  end.

Definition parse (text : string) : option json :=
  match value_at (S (String.length text)) text with
  | Some (v, rest) =>
      match skip_space rest with
      | EmptyString => Some v
      | _ => None
      end
  | None => None
  end.

Definition show_number (n : Z) : string := NilZero.string_of_int (Z.to_int n).

(** [JSON.stringify(v, null, 2)], at the indentation [margin]. *)
Fixpoint indented (margin : string) (v : json) : string :=
  let inner := margin ++ "  " in
  let between := "," ++ nl ++ inner in
  match v with
  | JNull => "null"
  | JBool b => if b then "true" else "false"
  | JNum n => show_number n
  | JStr s => JsonText.quote s
  | JArr [] => "[]"
  | JArr elements =>
      let fix each (l : list json) : list string :=
        match l with
        | [] => []
        | x :: r => indented inner x :: each r
        end in
      "[" ++ nl ++ inner ++ join between (each elements) ++ nl ++ margin ++ "]"
  | JObj [] => "{}"
  | JObj fields =>
      let fix each (l : list (string * json)) : list string :=
        match l with
        | [] => []
        | (k, x) :: r => (JsonText.quote k ++ ": " ++ indented inner x) :: each r
        end in
      "{" ++ nl ++ inner ++ join between (each fields) ++ nl ++ margin ++ "}"
  end.

(** The host: colours are switched off, as [colors/safe] does when the
    output is not a terminal. *)
Definition host : Host := {|
  number := Z;
  number_toString := show_number;
  number_truthy := fun n => negb (Z.eqb n 0);
  JSON_parse := parse;
  JSON_stringify_indented := indented "";
  grey := fun s => s;
  yellow := fun s => s;
  blue := fun s => s;
  bold := fun s => s;
  bold_green := fun s => s
|}.

End Sample.

(** ** Observing a run *)

Definition is_kill (e : effect) : bool :=
  match e with Kill _ => true | _ => false end.

Definition is_spawn (e : effect) : bool :=
  match e with Spawn _ => true | _ => false end.

Definition is_request (e : effect) : bool :=
  match e with Request _ _ _ _ => true | _ => false end.

Definition is_log (e : effect) : bool :=
  match e with Log _ => true | _ => false end.

(** How often an effect of some kind occurs in a trace. *)
Definition count (kind : effect -> bool) (trace : list effect) : nat :=
  List.length (filter kind trace).

(** An effect that only prints. *)
Definition printing (e : effect) : Prop := is_log e = true.

(** What [run] may still do once the stream has been handled: nothing,
    or the closing kill followed by prints. *)
Definition closing (w : World) (t : list effect) : Prop :=
  t = [] \/ exists printed, t = Kill (pid w) :: printed /\ Forall printing printed.

(** What [run] may do once the gate is open: nothing, or the request,
    prints, and a closing. *)
Definition serving (w : World) (p : Params) (t : list effect) : Prop :=
  t = [] \/
  exists i logs fin,
    validate p = inr i /\ t = request_of i :: (logs ++ fin)%list /\
    Forall printing logs /\ closing w fin.

(** What a trace does besides printing. *)
Definition acts (t : list effect) : list effect :=
  filter (fun e => negb (is_log e)) t.

(** The readiness pattern never appears on the child's stdout. *)
Definition silent (e : loop_event) : Prop :=
  match e with
  | StdoutData message => announces message = false
  | _ => True
  end.

(** An event that leaves the race as it started: a wake-up of the poller
    or output without a readiness line. *)
Definition idle (e : loop_event) : Prop :=
  match e with
  | StdoutData message => announces message = false
  | PollerWake => True
  | WatchdogWake | KillSettled _ => False
  end.

(** What the shared variables look like while the race is on: the
    watchdog has not woken yet, or it has set [isTimedOut] and awaits the
    killer. *)
Definition racing (g : Gate) : Prop :=
  watchdog_at g = Sleeping \/ (watchdog_at g = Killing /\ isTimedOut g = true).

(** The errors of the specification's taxonomy, by the statement of
    [run] that throws them. *)
Definition InvalidArgumentError (p : Params) (e : js_error) : Prop :=
  e = Error (unsupported_message (method_of p))
  \/ e = Error missing_pathname_message
  \/ e = Error (invalid_pathname_message (or_string (at0 (args p)) "")).

Definition ReadinessTimeoutError (e : js_error) : Prop :=
  e = Error timeout_message.



(** An error raised by the engine or a built-in, not by a [throw]. *)
Definition raised_by_engine (e : js_error) : bool :=
  match e with
  | TypeError _ | SyntaxError => true
  | Error _ | Rejection _ => false
  end.

Section Printed.

Context {host : Host}.

(** What the callback prints for a line of the function's stdout. *)
Definition stdout_line (verbose : bool) (line : string) : effect :=
  Log (grey ((if verbose then bold "stdout> " else "") ++ line)).

(** What the verbose flag prints before the result, for a numeric
    status. *)
Definition summary (i : Invocation) (code : number) : list effect :=
  [Log (bold_green "location:  " ++ location i);
   Log (bold_green "method:    " ++ toUpperCase (method i));
   Log (bold_green "status:    " ++ number_toString code);
   Log (bold_green "arguments: ");
   Log (JsonText.stringify_indented (functionParams i));
   Log (bold_green "result:")].

End Printed.

(** ** Inputs used in the examples *)

Module Example.

Definition ready : list loop_event :=
  [PollerWake; StdoutData ("*** Listening on localhost:8199" ++ nl); PollerWake].

(** The child never announces itself.  The killer confirms after the
    poller's next wake-up: it has processes to list and to signal first,
    and the poller wakes every millisecond. *)
Definition silent : list loop_event :=
  [PollerWake; StdoutData ("booting" ++ nl); PollerWake;
   WatchdogWake; PollerWake; KillSettled None].

(** The child never announces itself; the killer confirms before the
    poller wakes again. *)
Definition silent_quick_kill : list loop_event :=
  [PollerWake; WatchdogWake; KillSettled None; PollerWake].

Definition world (events : list loop_event) (r : io_result) : World :=
  {| loadPackage := None; pid := 4242; loop := events;
     response := r; final_kill := None |}.

Definition params (m : list string) (path : list string)
           (named : JsObject.t (list string)) : Params :=
  {| args := path;
     flags := match m with [] => [] | _ => [("m", m)] end;
     vflags := named |}.

Definition frame (kind text : string) : StreamEvent :=
  {| id := ""; event := kind; data := text |}.

Definition greeting : string := dquote ++ "hello" ++ dquote.

(** A response envelope: status 200, no headers, and a body that is
    itself the JSON text of an object with one true field [ok]. *)
Definition payload : string :=
  "{" ++ dquote ++ "statusCode" ++ dquote ++ ":200,"
      ++ dquote ++ "headers" ++ dquote ++ ":{},"
      ++ dquote ++ "body" ++ dquote ++ ":"
      ++ dquote ++ "{\" ++ dquote ++ "ok\" ++ dquote ++ ":true}" ++ dquote ++ "}".

End Example.

(** ** The login command

    [LoginCommand.run]: it reads the registry's address and the
    credentials from the command line, asks for the credentials that are
    missing, posts them, and on success prints who logged in and stores
    the access key. *)

Module Login.

(** What the command needs beyond the [Host]: the address of the
    registry ([constants.BASE_URL]) and two more colours. *)
Class Setting : Type := {
  BASE_URL : string;
  cyan : string -> string;
  green : string -> string
}.

(** An entry of the list handed to [inquirer.prompt]. *)
Record Question : Type := {
  name : string;
  type : string;
  message : string
}.

Definition ask_username : Question :=
  {| name := "username"; type := "input"; message := "E-mail / username" |}.

Definition ask_password : Question :=
  {| name := "password"; type := "password"; message := "Password" |}.

(** White space as [trim] sees it, among the 8-bit character codes: tab,
    line feed, vertical tab, form feed, carriage return, space and the
    no-break space. *)
Definition is_space (c : ascii) : bool :=
  let n := nat_of_ascii c in
  (Nat.leb 9 n && Nat.leb n 13) || Nat.eqb n 32 || Nat.eqb n 160.

Fixpoint trim_start (s : string) : string :=
  match s with
  | String c r => if is_space c then trim_start r else s
  | EmptyString => EmptyString
  end.

Fixpoint trim_end (s : string) : string :=
  match s with
  | EmptyString => EmptyString
  | String c r =>
      match trim_end r with
      | EmptyString => if is_space c then EmptyString else String c EmptyString
      | kept => String c kept
      end
  end.

(** [s.trim()]. *)
Definition trim (s : string) : string := trim_end (trim_start s).

(** A string of white space only. *)
Fixpoint blank (s : string) : bool :=
  match s with
  | EmptyString => true
  | String c r => is_space c && blank r
  end.

(** The lines that give an address without a scheme one: plain HTTP for
    a local server, HTTPS otherwise. *)
Definition with_scheme (address : string) : string :=
  if negb (startsWith address "http://") && negb (startsWith address "https://")
  then if startsWith address "localhost"
       then "http://" ++ address
       else "https://" ++ address
  else address.

(** [((params.vflags[name] || [])[0] || '').trim()]. *)
Definition credential (name : string) (p : Params) : string :=
  trim (or_string (at0 (or_empty (JsObject.get name (vflags p)))) "").

(** The questions for the credentials the command line did not give. *)
Definition inquireList_of (email password : string) : list Question :=
  ((if truthy email then [] else [ask_username])
     ++ (if truthy password then [] else [ask_password]))%list.

(** The credentials the command line did give. *)
Definition requestParams_of (email password : string) : JsObject.t string :=
  let with_email :=
    if truthy email then JsObject.set "username" email [] else [] in
  if truthy password then JsObject.set "password" password with_email
  else with_email.

(** [{ ...o }] spread onto the properties already defined. *)
Definition spread {A} (o acc : JsObject.t A) : JsObject.t A :=
  fold_left (fun acc kv => JsObject.put (fst kv) (snd kv) acc) o acc.

(** [{ ...requestParams, ...loginResult, grant_type: 'password' }]. *)
Definition sendParams_of (requestParams loginResult : JsObject.t string)
  : JsObject.t string :=
  JsObject.put "grant_type" "password" (spread loginResult (spread requestParams [])).

(** How the outside world answers the command. *)
Record World {host : Host} : Type := {
  (** How [inquirer.prompt] settles: the answers by question name. *)
  answers : js_error + JsObject.t string;
  (** How [io.post] settles: the status code and the parsed data. *)
  reply : js_error + (Z * option value);
  (** Whether [SettingsManager.write] throws. *)
  written : option js_error
}.

Section Command.

Context {host : Host} {setting : Setting}.

(** What the command does to the outside world. *)
Inductive effect : Type :=
| Prompt (questions : list Question)                 (* [inquirer.prompt] *)
| Post (url : string) (params : JsObject.t string)   (* [io.post] *)
| Print (line : string)                              (* [console.log] *)
| Store (data : JsObject.t (option value)).          (* [SettingsManager.write] *)

(** A computation of the command: its effects so far and how it ended. *)
Definition L (A : Type) : Type := (list effect * completion A)%type.

Definition unit_ {A} (a : A) : L A := ([], Value a).
Definition fail {A} (e : js_error) : L A := ([], Thrown e).
Definition does (e : effect) : L unit := ([e], Value tt).

Definition then_ {A B} (m : L A) (k : A -> L B) : L B :=
  match snd m with
  | Value a => ((fst m ++ fst (k a))%list, snd (k a))
  | Thrown e => (fst m, Thrown e)
  | Unsettled => (fst m, Unsettled)
  end.

Definition settle {A} (r : js_error + A) : L A :=
  match r with
  | inl e => fail e
  | inr a => unit_ a
  end.

Local Notation "x <~ m ;; k" := (then_ m (fun x => k))
  (at level 61, m at next level, right associativity).
Local Notation "m ~~> k" := (then_ m (fun _ => k))
  (at level 61, right associativity).

(** [v.name] for the names the command reads, none of which a prototype
    defines. *)
Definition member (name : string) (v : option value) : js_error + option value :=
  match v with
  | None => inl (TypeError (ReadOfUndefined name))
  | Some JNull => inl (TypeError (ReadOfNull name))
  | Some (JObj fields) => inr (JsObject.get name fields)
  | Some _ => inr None
  end.

(** [v[0]]. *)
Definition index0 (v : option value) : js_error + option value :=
  match v with
  | None => inl (TypeError (ReadOfUndefined "0"))
  | Some JNull => inl (TypeError (ReadOfNull "0"))
  | Some (JObj fields) => inr (JsObject.get "0" fields)
  | Some (JArr elements) => inr (at0 elements)
  | Some (JStr (String c _)) => inr (Some (JStr (String c EmptyString)))
  | Some _ => inr None
  end.

(** A value interpolated into a template string. *)
Definition interpolate (v : option value) : js_error + string :=
  match v with
  | None => inr "undefined"
  | Some v => ToString v
  end.

(** A value, or [undefined], used as a condition. *)
Definition holds (v : option value) : bool :=
  match v with
  | None => false
  | Some v => truthy_value v
  end.

(** [v.length] as a condition, for a [v] that counts as true. *)
Definition has_length (v : value) : bool :=
  match v with
  | JArr elements => match elements with [] => false | _ => true end
  | JStr s => truthy s
  | JObj fields => holds (JsObject.get "length" fields)
  | _ => false
  end.

Definition index_text (n : nat) : string := NilZero.string_of_uint (Nat.to_uint n).

Fixpoint indexed {A} (from : nat) (l : list A) : list (string * A) :=
  match l with
  | [] => []
  | x :: r => (index_text from, x) :: indexed (S from) r
  end.

Fixpoint characters (s : string) : list value :=
  match s with
  | EmptyString => []
  | String c r => JStr (String c EmptyString) :: characters r
  end.

(** The enumerable properties of a value, by key, as [Object.keys] and
    [for ... in] go through them. *)
Definition entries (v : value) : list (string * value) :=
  match v with
  | JObj fields => fields
  | JArr elements => indexed 0 elements
  | JStr s => indexed 0 (characters s)
  | _ => []
  end.

(** The body of the loop over the details of an error. *)
Definition detail_line (kv : string * value) : js_error + string :=
  match member "message" (Some (snd kv)) with
  | inl e => inl e
  | inr m =>
      match interpolate m with
      | inl e => inl e
      | inr text => inr ("- " ++ bold (fst kv) ++ ": " ++ text)
      end
  end.

Fixpoint detail_lines (l : list (string * value)) : js_error + list string :=
  match l with
  | [] => inr []
  | kv :: r =>
      match detail_line kv with
      | inl e => inl e
      | inr line =>
          match detail_lines r with
          | inl e => inl e
          | inr lines => inr (line :: lines)
          end
      end
  end.

(** What the command throws for a status other than 200. *)
Definition refusal (data : option value) : L unit :=
  e <~ settle (member "error" data) ;;
  message <~ settle (member "message" e) ;;
  found <~ settle (member "details" e) ;;
  let details := match found with
                 | Some d => if truthy_value d then d else JObj []
                 | None => JObj []
                 end in
  more <~ settle (detail_lines (entries details)) ;;
  text <~ settle (interpolate message) ;;
  fail (Error (text ++ match more with
                       | [] => ""
                       | _ => nl ++ nl ++ join nl more
                       end)).

(** What the command prints and stores for a status of 200. *)
Definition welcome (w : World) (address : string) (user : option value) : L unit :=
  tokens <~ settle (member "accessTokens" user) ;;
  token <~ settle (index0 tokens) ;;
  does (Print "") ~~>
  does (Print (bold (cyan "Logged in" ++ " to " ++ green "Instant.bot"
                       ++ " successfully!"))) ~~>
  email <~ settle (member "email" user) ;;
  shown <~ settle (interpolate email) ;;
  does (Print (bold "email" ++ ":    " ++ shown)) ~~>
  memberships <~ settle (member "memberships" user) ;;
  (if holds memberships && match memberships with
                           | Some m => has_length m
                           | None => false
                           end
   then first <~ settle (index0 memberships) ;;
        organization <~ settle (member "organization" first) ;;
        called <~ settle (member "name" organization) ;;
        shown <~ settle (interpolate called) ;;
        does (Print (bold "username" ++ ": " ++ shown))
   else unit_ tt) ~~>
  created <~ settle (member "created_at" token) ;;
  shown <~ settle (interpolate created) ;;
  does (Print (bold "login at" ++ ": " ++ shown)) ~~>
  does (Print "") ~~>
  key <~ settle (member "key" token) ;;
  does (Store ([("email", email); ("key", key)]
                 ++ (if String.eqb address BASE_URL then []
                     else [("host", Some (JStr address))]))%list) ~~>
  match written w with
  | Some e => fail e
  | None => unit_ tt
  end.

(** [(params.flags.h || [])[0] || constants.BASE_URL], with a scheme. *)
Definition address_of (p : Params) : string :=
  with_scheme (or_string (at0 (or_empty (JsObject.get "h" (flags p)))) BASE_URL).

(** [LoginCommand.run]. *)
Definition run (w : World) (p : Params) : L unit :=
  let address := address_of p in
  let email := credential "email" p in
  let password := credential "password" p in
  does (Prompt (inquireList_of email password)) ~~>
  loginResult <~ settle (answers w) ;;
  does (Post (address ++ "/auth")
             (sendParams_of (requestParams_of email password) loginResult)) ~~>
  result <~ settle (reply w) ;;
  if negb (Z.eqb (fst result) 200) then refusal (snd result)
  else welcome w address (snd result).

(** What the command may do once the reply is in: print, and then
    perhaps store, as its last effect; the flag tells whether it stored. *)
Inductive closes : bool -> list effect -> Prop :=
| closes_nothing : closes false []
| closes_store (data : JsObject.t (option value)) : closes true [Store data]
| closes_print (stored : bool) (line : string) (rest : list effect) :
    closes stored rest -> closes stored (Print line :: rest).

(** The credential as the command line gives it, before trimming. *)
Definition given (name : string) (p : Params) : string :=
  or_string (at0 (or_empty (JsObject.get name (vflags p)))) "".

(** The request the command posts, for the answers it was given. *)
Definition post_of (p : Params) (loginResult : JsObject.t string) : effect :=
  Post (address_of p ++ "/auth")
       (sendParams_of (requestParams_of (credential "email" p)
                                        (credential "password" p))
                      loginResult).

(** The prompt the command opens with. *)
Definition prompt_of (p : Params) : effect :=
  Prompt (inquireList_of (credential "email" p) (credential "password" p)).

(** A computation that prints, perhaps stores last, and returns only
    after having stored without an error. *)
Definition finishes (w : World) (m : L unit) : Prop :=
  exists stored,
    closes stored (fst m) /\
    (snd m = Value tt -> stored = true /\ written w = None).

End Command.

(** A setting and inputs to run the command on: colours are switched
    off. *)
Definition sample : Setting :=
  {| BASE_URL := "https://api.registry.test";
     cyan := fun s => s;
     green := fun s => s |}.

Definition params (address : list string) (named : JsObject.t (list string))
  : Params :=
  {| args := [];
     flags := match address with [] => [] | _ => [("h", address)] end;
     vflags := named |}.

(** The data of a successful reply, as the sample host parses it. *)
Definition user : JSValue Z :=
  JObj [("email", JStr "ada@example.org");
        ("accessTokens",
         JArr [JObj [("key", JStr "k-123"); ("created_at", JStr "2020-01-01")]])].

(** The data of a refusal with two details. *)
Definition refused : JSValue Z :=
  JObj [("error",
         JObj [("message", JStr "Invalid credentials");
               ("details",
                JObj [("username", JObj [("message", JStr "unknown")]);
                      ("password", JObj [("message", JStr "too short")])])])].

End Login.

(** * Properties *)

(** ** The monad *)

Lemma bind_ret {A B} (a : A) (k : A -> M B) : bind (ret a) k = k a.
Proof. unfold bind, ret; simpl. now destruct (k a). Qed.

Lemma bind_throw {A B} (e : js_error) (k : A -> M B) : bind (throw e) k = throw e.
Proof. reflexivity. Qed.

Lemma bind_perform {B} (e : effect) (k : unit -> M B) :
  bind (perform e) k = (e :: fst (k tt), snd (k tt)).
Proof. reflexivity. Qed.

Lemma bind_value {A B} (trace : list effect) (a : A) (k : A -> M B) :
  bind (trace, Value a) k = ((trace ++ fst (k a))%list, snd (k a)).
Proof. reflexivity. Qed.


Lemma bind_assoc {A B C} (m : M A) (k : A -> M B) (h : B -> M C) :
  bind (bind m k) h = bind m (fun a => bind (k a) h).
Proof.
  destruct m as [trace [a | e | ]]; unfold bind; simpl; try reflexivity.
  destruct (k a) as [trace' [b | e | ]]; simpl; try reflexivity.
  now rewrite app_assoc.
Qed.

Lemma bind_ext {A B} (m : M A) (k k' : A -> M B) :
  (forall a, k a = k' a) -> bind m k = bind m k'.
Proof.
  intros E. unfold bind. destruct (snd m); try reflexivity. now rewrite E.
Qed.

(** ** Strings *)

Lemma startsWith_app (p s : string) : startsWith (p ++ s) p = true.
Proof.
  induction p as [| c p IH]; simpl; [reflexivity |].
  now rewrite Ascii.eqb_refl.
Qed.

Lemma slice_app (p s : string) : slice (String.length p) (p ++ s) = s.
Proof. induction p as [| c p IH]; simpl; [reflexivity | exact IH]. Qed.

Lemma startsWith_char (c : ascii) (d : ascii) (s : string) :
  startsWith (String d s) (String c "") = Ascii.eqb c d.
Proof. simpl. now rewrite andb_true_r. Qed.

Lemma strip_one_char (c d : ascii) (s : string) :
  strip_one (String c "") (String d s) = if Ascii.eqb c d then s else String d s.
Proof. unfold strip_one. now rewrite startsWith_char. Qed.

(** ** Plain objects *)

Lemma put_fresh {A} (k : string) (x : A) (o : JsObject.t A) :
  ~ In k (JsObject.keys o) -> JsObject.put k x o = (o ++ [(k, x)])%list.
Proof.
  induction o as [| [k' v'] o IH]; simpl; intros Hk; [reflexivity |].
  destruct (String.eqb k k') eqn:E.
  - apply String.eqb_eq in E. subst. tauto.
  - f_equal. apply IH. tauto.
Qed.

Lemma get_map {A B} (f : A -> B) (k : string) (o : JsObject.t A) :
  JsObject.get k (map (fun kv => (fst kv, f (snd kv))) o)
  = option_map f (JsObject.get k o).
Proof.
  induction o as [| [k' v'] o IH]; simpl; [reflexivity |].
  now destruct (String.eqb k k').
Qed.

Lemma keys_map {A B} (f : A -> B) (o : JsObject.t A) :
  JsObject.keys (map (fun kv => (fst kv, f (snd kv))) o) = JsObject.keys o.
Proof.
  unfold JsObject.keys. rewrite map_map. now apply map_ext.
Qed.

(** The [reduce] appends one joined entry per key to what it has
    accumulated, as long as no key repeats. *)
Lemma reduce_appends (v : JsObject.t (list string)) :
  forall acc : JsObject.t string,
    NoDup (JsObject.keys acc ++ JsObject.keys v) ->
    ~ In "__proto__" (JsObject.keys v) ->
    fold_left (fun acc kv => JsObject.set (fst kv) (join " " (snd kv)) acc) v acc
    = (acc ++ map (fun kv => (fst kv, join " " (snd kv))) v)%list.
Proof.
  induction v as [| [k values] v IH]; intros acc Hnd Hproto; simpl.
  - now rewrite app_nil_r.
  - simpl in Hproto, Hnd.
    assert (Hk : ~ In k (JsObject.keys acc)).
    { intros Hin. apply NoDup_remove_2 in Hnd. apply Hnd.
      apply in_or_app. now left. }
    unfold JsObject.set at 2.
    destruct (String.eqb k "__proto__") eqn:E.
    { apply String.eqb_eq in E. subst. tauto. }
    rewrite (put_fresh _ _ _ Hk). rewrite IH.
    + now rewrite <- app_assoc.
    + unfold JsObject.keys. rewrite map_app. simpl.
      rewrite <- app_assoc. exact Hnd.
    + tauto.
Qed.

Lemma functionParams_of_plain (v : JsObject.t (list string)) :
  JsObject.plain v ->
  functionParams_of v = map (fun kv => (fst kv, join " " (snd kv))) v.
Proof.
  intros [Hnd Hproto]. unfold functionParams_of.
  now rewrite reduce_appends.
Qed.

(** ** Validation *)

Section Validation.

Context {host : Host}.

Lemma run_rejected (w : World) (p : Params) (e : js_error) :
  loadPackage w = None -> validate p = inl e -> run w p = ([], Thrown e).
Proof.
  intros Hload Hval. unfold run. rewrite Hload, Hval. reflexivity.
Qed.

Lemma run_accepted (w : World) (p : Params) (i : Invocation) :
  loadPackage w = None -> validate p = inr i ->
  run w p = (perform (Spawn port) ;;;
             race (pid w) gate_start (loop w) ;;;
             perform (request_of i) ;;;
             receive w (verbose_of p) i).
Proof.
  intros Hload Hval. unfold run. rewrite Hload, Hval.
  simpl await. simpl lift. now rewrite !bind_ret.
Qed.

(** A run that gets past the package loader performs a spawn exactly
    when its arguments are accepted. *)
Lemma spawn_follows_validation (w : World) (p : Params) :
  loadPackage w = None ->
  match validate p with
  | inl e => run w p = ([], Thrown e)
  | inr _ => exists trace, fst (run w p) = Spawn port :: trace
  end.
Proof.
  intros Hload. destruct (validate p) as [e | i] eqn:Hval.
  - now apply run_rejected.
  - rewrite (run_accepted w p i Hload Hval). rewrite bind_perform.
    eexists. reflexivity.
Qed.

(** An unsupported method is refused, with the lower-cased method in
    the message, before anything is spawned. *)
Lemma unsupported_method_rejected (w : World) (p : Params) :
  loadPackage w = None ->
  is_supported (method_of p) = false ->
  run w p = ([], Thrown (Error (unsupported_message (method_of p)))).
Proof.
  intros Hload Hm. apply run_rejected; [exact Hload |].
  unfold validate, check_method. now rewrite Hm.
Qed.

(** A missing pathname is refused before anything is spawned, provided
    the method check lets the run get that far. *)
Lemma missing_pathname_rejected (w : World) (p : Params) (m : string) :
  loadPackage w = None ->
  check_method p = inr m ->
  or_string (at0 (args p)) "" = "" ->
  run w p = ([], Thrown (Error missing_pathname_message)).
Proof.
  intros Hload Hm Hpath. apply run_rejected; [exact Hload |].
  unfold validate. rewrite Hm. unfold normalize_pathname. now rewrite Hpath.
Qed.

(** The method check lets through exactly four methods. *)
Lemma check_method_accepts (p : Params) (m : string) :
  check_method p = inr m <->
  m = method_of p /\ (m = "get" \/ m = "post" \/ m = "put" \/ m = "delete").
Proof.
  unfold check_method, is_supported, supported_methods. simpl existsb.
  destruct (String.eqb (method_of p) "get") eqn:E1;
    [apply String.eqb_eq in E1; rewrite E1; simpl; split;
     [intros [= <-]; tauto | now intros [-> _]] |].
  destruct (String.eqb (method_of p) "post") eqn:E2;
    [apply String.eqb_eq in E2; rewrite E2; simpl; split;
     [intros [= <-]; tauto | now intros [-> _]] |].
  destruct (String.eqb (method_of p) "put") eqn:E3;
    [apply String.eqb_eq in E3; rewrite E3; simpl; split;
     [intros [= <-]; tauto | now intros [-> _]] |].
  destruct (String.eqb (method_of p) "delete") eqn:E4;
    [apply String.eqb_eq in E4; rewrite E4; simpl; split;
     [intros [= <-]; tauto | now intros [-> _]] |].
  apply String.eqb_neq in E1, E2, E3, E4.
  destruct (String.eqb (method_of p) "del") eqn:E5; simpl.
  - split; [discriminate |]. intros [-> Hm]. intuition congruence.
  - split; [discriminate |]. intros [-> Hm]. intuition congruence.
Qed.

End Validation.

(** ** Claims about validation *)

(** C3 (the code departs from the claim).  The claim has a method flag
    that reads del, in any letter case, turned into delete.  The code
    declares [method] with [const] and then assigns to it: whenever the
    lower-cased flag is del, [run] throws a [TypeError] at that assignment,
    before anything is spawned and before any request. *)
Theorem del_throws_on_assignment :
  forall (host : Host) (w : World) (p : Params),
    loadPackage w = None ->
    method_of p = "del" ->
    run w p = ([], Thrown (TypeError (AssignmentToConstant "method"))).
Proof.
  intros host w p Hload Hm. apply run_rejected; [exact Hload |].
  unfold validate, check_method. now rewrite Hm.
Qed.

Lemma del_throws_on_assignment_witness :
  let w := Example.world Example.ready (IoResolves [] 200 "") in
  let p := Example.params ["DEL"] ["/a/b"] [] in
  loadPackage w = None /\ method_of p = "del" /\
  @run Sample.host w p = ([], Thrown (TypeError (AssignmentToConstant "method"))).
Proof.
  split; [reflexivity |]. split; [reflexivity |].
  apply (del_throws_on_assignment Sample.host); reflexivity.
Defined.

(** C8 (the code departs from the claim).  With the method flag del and
    no pathname, [run] stops at the assignment to the constant [method]:
    nothing is spawned, but the error is the engine's [TypeError], not one
    of the three errors [run] throws for invalid arguments.  Every other
    part of the claim holds: see [unsupported_method_rejected],
    [missing_pathname_rejected] and [spawn_follows_validation]. *)
Theorem missing_pathname_after_del :
  let w := Example.world Example.ready (IoResolves [] 200 "") in
  let p := Example.params ["del"] [] [] in
  or_string (at0 (args p)) "" = "" /\
  @run Sample.host w p = ([], Thrown (TypeError (AssignmentToConstant "method"))) /\
  ~ InvalidArgumentError p (TypeError (AssignmentToConstant "method")).
Proof.
  split; [reflexivity |]. split; [reflexivity |].
  unfold InvalidArgumentError. intros [E | [E | E]]; discriminate E.
Qed.

(** C4, as stated, fails: of two leading slashes only one is removed. *)
Lemma double_slash_keeps_one :
  normalize_pathname "//a/b" = inr "/a/b" /\
  normalize_pathname "//a/b" <> inr "a/b".
Proof. split; [reflexivity | discriminate]. Qed.

(** C4 (amended).  For every non-empty pathname that does not start with
    two dots, normalization removes at most one leading dot and then at
    most one leading slash, and nothing else: the pathname is
    [dot ++ slash ++ rest] and [rest] is the result.  So ./a/b, /a/b and
    a/b all become a/b, and //a/b becomes /a/b. *)
Theorem normalize_strips_one_dot_one_slash :
  forall p : string,
    p <> "" ->
    startsWith p ".." = false ->
    exists dot slash rest : string,
      p = dot ++ slash ++ rest /\
      normalize_pathname p = inr rest /\
      (dot = "" \/ dot = ".") /\
      (slash = "" \/ slash = "/") /\
      (dot = "" -> startsWith p "." = false) /\
      (slash = "" -> startsWith rest "/" = false) /\
      normalize_pathname "./a/b" = inr "a/b" /\
      normalize_pathname "/a/b" = inr "a/b" /\
      normalize_pathname "a/b" = inr "a/b" /\
      normalize_pathname "//a/b" = inr "/a/b".
Proof.
  intros p Hne Hdots.
  assert (Hnorm : normalize_pathname p = inr (strip_one "/" (strip_one "." p))).
  { unfold normalize_pathname. rewrite Hdots.
    destruct p; [contradiction | reflexivity]. }
  rewrite Hnorm.
  destruct p as [| c p]; [contradiction |].
  rewrite strip_one_char.
  destruct (Ascii.eqb "." c) eqn:Ec.
  - apply Ascii.eqb_eq in Ec. subst c.
    destruct p as [| d p].
    + exists ".", "", "". repeat split; auto; intros E; discriminate E.
    + rewrite strip_one_char. destruct (Ascii.eqb "/" d) eqn:Ed.
      * apply Ascii.eqb_eq in Ed. subst d.
        exists ".", "/", p. repeat split; auto; intros E; discriminate E.
      * exists ".", "", (String d p).
        repeat split; auto; try (intros E; discriminate E).
        intros _. now rewrite startsWith_char.
  - rewrite strip_one_char. destruct (Ascii.eqb "/" c) eqn:Es.
    + apply Ascii.eqb_eq in Es. subst c.
      exists "", "/", p.
      repeat split; auto; try (intros E; discriminate E).
    + exists "", "", (String c p).
      repeat split; auto; intros _; now rewrite startsWith_char.
Qed.

Lemma normalize_strips_one_dot_one_slash_witness :
  exists dot slash rest : string,
    "./a/b" = dot ++ slash ++ rest /\
    normalize_pathname "./a/b" = inr rest /\
    (dot = "" \/ dot = ".") /\
    (slash = "" \/ slash = "/") /\
    (dot = "" -> startsWith "./a/b" "." = false) /\
    (slash = "" -> startsWith rest "/" = false) /\
    normalize_pathname "./a/b" = inr "a/b" /\
    normalize_pathname "/a/b" = inr "a/b" /\
    normalize_pathname "a/b" = inr "a/b" /\
    normalize_pathname "//a/b" = inr "/a/b".
Proof.
  apply (normalize_strips_one_dot_one_slash "./a/b");
    [discriminate | reflexivity].
Defined.

(** C10.  For every accepted invocation whose named flags form a plain
    object, the parameter map has exactly one entry per named flag, in
    the same order, and its value is the flag's words joined by single
    spaces. *)
Theorem vflags_joined_with_spaces :
  forall (p : Params) (i : Invocation),
    JsObject.plain (vflags p) ->
    validate p = inr i ->
    functionParams i = map (fun kv => (fst kv, join " " (snd kv))) (vflags p) /\
    JsObject.keys (functionParams i) = JsObject.keys (vflags p) /\
    (forall k : string,
        JsObject.get k (functionParams i)
        = option_map (join " ") (JsObject.get k (vflags p))) /\
    join " " ["a"; "b"; "c"] = "a b c".
Proof.
  intros p i Hplain Hval.
  assert (Hfp : functionParams i = functionParams_of (vflags p)).
  { unfold validate in Hval. destruct (check_method p); [discriminate |].
    destruct (normalize_pathname _); [discriminate |].
    now injection Hval as <-. }
  rewrite Hfp, (functionParams_of_plain _ Hplain).
  split; [reflexivity |]. split; [apply keys_map |].
  split; [intros k; apply get_map | reflexivity].
Qed.

Lemma vflags_joined_with_spaces_witness :
  let p := Example.params [] ["/a"] [("name", ["Ada"; "Lovelace"]); ("n", ["1"])] in
  let i := {| method := "get";
              functionParams := [("name", "Ada Lovelace"); ("n", "1")];
              pathname := "a" |} in
  JsObject.plain (vflags p) /\ validate p = inr i /\
  JsObject.get "name" (functionParams i) = Some "Ada Lovelace".
Proof.
  intros p i.
  assert (Hplain : JsObject.plain (vflags p)).
  { split.
    - repeat constructor; simpl; intuition discriminate.
    - simpl; intuition discriminate. }
  split; [exact Hplain |]. split; [reflexivity |].
  destruct (vflags_joined_with_spaces p i Hplain eq_refl) as (_ & _ & Hget & _).
  rewrite Hget. reflexivity.
Defined.

(** ** The readiness gate *)

Section Gate.

Variable child : Z.

(** Idle events do not move the race. *)
Lemma race_idle (before rest : list loop_event) :
  Forall idle before ->
  race child gate_start (before ++ rest) = race child gate_start rest.
Proof.
  induction 1 as [| e before He _ IH]; simpl; [reflexivity |].
  destruct e as [message | | | err]; simpl in He; try contradiction.
  - unfold on_stdout. rewrite He. exact IH.
  - exact IH.
Qed.

(** Once a readiness line has been seen, the next wake-up of either
    racer fulfils the race, and nothing is killed. *)
Lemma race_announced (message : string) (rest : list loop_event) :
  announces message = true ->
  race child gate_start (StdoutData message :: PollerWake :: rest) = ret tt /\
  race child gate_start (StdoutData message :: WatchdogWake :: rest) = ret tt.
Proof.
  intros Ha. simpl. unfold on_stdout. rewrite Ha. simpl. split; reflexivity.
Qed.

(** The watchdog wakes on silence and the killer confirms before the
    poller wakes again: the race is rejected with the timeout error. *)
Lemma race_killer_first (rest : list loop_event) :
  race child gate_start (WatchdogWake :: KillSettled None :: rest)
  = ([Kill child], Thrown (Error timeout_message)).
Proof. reflexivity. Qed.

(** The watchdog wakes on silence and the poller wakes before the
    killer has confirmed: the poller sees [isTimedOut], returns, and the
    race is fulfilled. *)
Lemma race_poller_first (rest : list loop_event) :
  race child gate_start (WatchdogWake :: PollerWake :: rest)
  = ([Kill child], Value tt).
Proof. reflexivity. Qed.

(** While the watchdog awaits the killer, the race has performed its
    one kill; how it settles is decided by what comes first. *)
Lemma race_killing (g : Gate) (events : list loop_event) :
  watchdog_at g = Killing ->
  isTimedOut g = true ->
  fst (race child g events) = [] /\
  (snd (race child g events) = Unsettled
   \/ snd (race child g events) = Value tt
   \/ exists e, snd (race child g events) = Thrown e).
Proof.
  revert g. induction events as [| ev events IH]; intros g Hw Ht; simpl.
  - auto.
  - destruct ev as [message | | | err].
    + apply IH; unfold on_stdout; destruct (announces message); simpl; auto.
    + rewrite Hw. now apply IH.
    + rewrite Ht, andb_false_r. simpl. auto.
    + rewrite Hw. destruct err as [e |]; simpl; eauto.
Qed.

(** On a silent child the race kills at most once, never before the
    watchdog wakes, and is fulfilled only by the poller overtaking the
    killer. *)
Lemma race_silent (events : list loop_event) :
  Forall silent events ->
  race child gate_start events = ([], Unsettled)
  \/ fst (race child gate_start events) = [Kill child].
Proof.
  induction 1 as [| ev events Hev _ IH]; simpl; [now left |].
  destruct ev as [message | | | err]; simpl in Hev.
  - unfold on_stdout. rewrite Hev. exact IH.
  - right. rewrite bind_perform. simpl.
    match goal with
    | |- context [race child ?g events] =>
        destruct (race_killing g events eq_refl eq_refl) as [-> _]
    end.
    reflexivity.
  - exact IH.
  - exact IH.
Qed.

End Gate.

Section GateSettles.

Variable child : Z.

Lemma racing_on_stdout (g : Gate) (message : string) :
  racing g -> racing (on_stdout g message).
Proof. unfold racing, on_stdout. destruct (announces message); simpl; auto. Qed.

(** The race does settle: whatever came before, once the timer has
    fired and the poller has woken once more, one of the racers has
    returned or thrown. *)
Lemma race_settles (events : list loop_event) :
  forall g : Gate,
    racing g ->
    snd (race child g (events ++ [WatchdogWake; PollerWake])) <> Unsettled.
Proof.
  induction events as [| ev events IH]; intros g Hg.
  - simpl. destruct Hg as [Hs | [Hk Ht]].
    + rewrite Hs. destruct (isConnected g) eqn:Hc; simpl; discriminate.
    + rewrite Hk, Ht, andb_false_r. simpl. discriminate.
  - simpl. destruct ev as [message | | | err].
    + apply IH. now apply racing_on_stdout.
    + destruct Hg as [Hs | [Hk Ht]].
      * rewrite Hs. destruct (isConnected g); simpl; [discriminate |].
        apply IH. right. split; reflexivity.
      * rewrite Hk. apply IH. right. now split.
    + destruct (negb (isConnected g) && negb (isTimedOut g)); simpl;
        [now apply IH | discriminate].
    + destruct Hg as [Hs | [Hk Ht]].
      * rewrite Hs. apply IH. now left.
      * rewrite Hk. destruct err; simpl; discriminate.
Qed.

End GateSettles.

(** ** The request and the stream *)

Lemma get_put_same {A} (k : string) (x : A) (o : JsObject.t A) :
  JsObject.get k (JsObject.put k x o) = Some x.
Proof.
  induction o as [| [k' v'] o IH]; simpl.
  - now rewrite String.eqb_refl.
  - destruct (String.eqb k k') eqn:E; simpl; rewrite E; [reflexivity | exact IH].
Qed.

Lemma get_put_other {A} (k k' : string) (x : A) (o : JsObject.t A) :
  k' <> k -> JsObject.get k' (JsObject.put k x o) = JsObject.get k' o.
Proof.
  intros Hne. induction o as [| [k0 v0] o IH]; simpl.
  - apply String.eqb_neq in Hne. now rewrite Hne.
  - destruct (String.eqb k k0) eqn:E; simpl.
    + apply String.eqb_eq in E. subst k0.
      apply String.eqb_neq in Hne. now rewrite Hne.
    + now rewrite IH.
Qed.

Lemma for_each_perform {A} (f : A -> effect) (l : list A) :
  for_each (fun x => perform (f x)) l = (map f l, Value tt).
Proof.
  induction l as [| x l IH]; simpl; [reflexivity |].
  rewrite bind_perform, IH. reflexivity.
Qed.

Section Serving.

Context {host : Host}.

Lemma run_requesting (w : World) (p : Params) (i : Invocation)
      (gate : list effect) :
  loadPackage w = None ->
  validate p = inr i ->
  race (pid w) gate_start (loop w) = (gate, Value tt) ->
  run w p = (Spawn port :: gate ++ request_of i :: fst (receive w (verbose_of p) i),
             snd (receive w (verbose_of p) i)).
Proof.
  intros Hload Hval Hrace. rewrite (run_accepted w p i Hload Hval).
  now rewrite Hrace.
Qed.

Lemma run_gate_closed (w : World) (p : Params) (i : Invocation)
      (gate : list effect) (e : js_error) :
  loadPackage w = None ->
  validate p = inr i ->
  race (pid w) gate_start (loop w) = (gate, Thrown e) ->
  run w p = (Spawn port :: gate, Thrown e).
Proof.
  intros Hload Hval Hrace. rewrite (run_accepted w p i Hload Hval).
  now rewrite Hrace.
Qed.

(** The frames are handled one after the other: what the callback did
    for the earlier frames is done, and the variable [result] is what
    they left, when the later frames are handled. *)
Lemma deliver_app (verbose : bool) (earlier later : list StreamEvent) :
  forall result : option value,
    deliver verbose result (earlier ++ later)
    = (r <- deliver verbose result earlier ;; deliver verbose r later).
Proof.
  induction earlier as [| e earlier IH]; intros result; simpl.
  - now rewrite bind_ret.
  - rewrite bind_assoc. apply bind_ext. intros r. apply IH.
Qed.

Lemma passthrough_string (colour : string -> string) (verbose : bool)
      (prefix text s : string) :
  JSON_parse text = Some (JStr s) ->
  passthrough colour verbose prefix text
  = (map (fun line => Log (colour ((if verbose then bold prefix else "") ++ line)))
         (split_lines s),
     Value tt).
Proof.
  intros Hparse. unfold passthrough, parse. rewrite Hparse.
  rewrite bind_ret. simpl split_of. rewrite bind_ret.
  apply for_each_perform.
Qed.

(** What the pass-through of one frame can do: print, or throw an
    error of the engine without having printed. *)
Lemma passthrough_cases (colour : string -> string) (verbose : bool)
      (prefix text : string) :
  (exists lines, passthrough colour verbose prefix text = (map Log lines, Value tt))
  \/ (exists e, passthrough colour verbose prefix text = ([], Thrown e)
                /\ raised_by_engine e = true).
Proof.
  unfold passthrough, parse.
  destruct (JSON_parse text) as [[| b | n | s | l | fields] |];
    try (right; eexists; split; reflexivity).
  left. rewrite bind_ret. simpl split_of. rewrite bind_ret.
  rewrite for_each_perform.
  eexists. rewrite <- map_map with (g := Log). reflexivity.
Qed.

(** A frame that is not a response leaves [result] alone. *)
Lemma callback_other (verbose : bool) (result : option value) (e : StreamEvent) :
  event e <> "@response" ->
  (exists lines, callback verbose result e = (map Log lines, Value result))
  \/ (exists err, callback verbose result e = ([], Thrown err)
                  /\ raised_by_engine err = true).
Proof.
  intros Hne. unfold callback.
  apply String.eqb_neq in Hne. rewrite Hne.
  destruct (String.eqb (event e) "@stdout").
  { destruct (passthrough_cases grey verbose "stdout> " (data e))
      as [[lines ->] | [err [-> Herr]]].
    - left. exists lines. rewrite bind_value, app_nil_r. reflexivity.
    - right. exists err. now split. }
  destruct (String.eqb (event e) "@stderr").
  { destruct (passthrough_cases yellow verbose "stderr> " (data e))
      as [[lines ->] | [err [-> Herr]]].
    - left. exists lines. rewrite bind_value, app_nil_r. reflexivity.
    - right. exists err. now split. }
  left. eexists [_]. reflexivity.
Qed.

(** A stream without a response frame leaves [result] as it was, or
    ends early with an error of the engine; either way it only prints. *)
Lemma deliver_without_response (verbose : bool) (frames : list StreamEvent) :
  Forall (fun e => event e <> "@response") frames ->
  forall result : option value,
    exists lines,
      fst (deliver verbose result frames) = map Log lines /\
      (snd (deliver verbose result frames) = Value result
       \/ exists err, snd (deliver verbose result frames) = Thrown err
                      /\ raised_by_engine err = true).
Proof.
  induction 1 as [| e frames He _ IH]; intros result; simpl.
  - exists []. split; [reflexivity | now left].
  - destruct (callback_other verbose result e He)
      as [[lines ->] | [err [-> Herr]]].
    + destruct (IH result) as [lines' [Hfst Hsnd]].
      exists (lines ++ lines')%list. rewrite bind_value. simpl.
      rewrite Hfst, map_app. split; [reflexivity | exact Hsnd].
    + exists []. split; [reflexivity |]. right. exists err. now split.
Qed.

(** ** The end of the run *)

Lemma conclude_error (w : World) (verbose : bool) (i : Invocation)
      (result : option value) (body : string) :
  conclude w verbose i result 500 body = throw (Error (error_message body)).
Proof. reflexivity. Qed.


(** A body that starts with the prefix and its space loses them. *)
Lemma error_message_prefixed (rest : string) :
  error_message ("Application Error: " ++ rest) = first_line rest.
Proof. reflexivity. Qed.

(** A body that does not start with the prefix is kept. *)
Lemma error_message_plain (body : string) :
  startsWith body "Application Error:" = false ->
  error_message body = first_line body.
Proof. intros Hs. unfold error_message. now rewrite Hs. Qed.

End Serving.

(** ** Claims about the run *)

(** C1 (the code departs from the claim).  The claim has the child killed
    exactly once on every way out.  On a response with status 500 and on
    a stream without a response frame, [run] throws before it reaches its
    only [killProcess] after the request: the child was spawned and is
    never killed. *)
Theorem error_paths_leave_child_running :
  let p := Example.params [] ["/a/b"] [] in
  let remote :=
    Example.world Example.ready
      (IoResolves [] 500 ("Application Error: boom" ++ nl ++ "stack line 2")) in
  let protocol := Example.world Example.ready (IoResolves [] 200 "") in
  let request :=
    Request "GET" "http://localhost:8199/a/b" [("_debug", QBool true)] "" in
  @run Sample.host remote p = ([Spawn 8199; request], Thrown (Error "boom")) /\
  count is_spawn (fst (@run Sample.host remote p)) = 1 /\
  count is_kill (fst (@run Sample.host remote p)) = 0 /\
  @run Sample.host protocol p
  = ([Spawn 8199; request], Thrown (TypeError (ReadOfUndefined "body"))) /\
  count is_spawn (fst (@run Sample.host protocol p)) = 1 /\
  count is_kill (fst (@run Sample.host protocol p)) = 0.
Proof. repeat split; reflexivity. Qed.

(** On a status of 500 nothing is killed after the request, whatever the
    stream carried. *)
Lemma no_kill_on_remote_error :
  forall (host : Host) (w : World) (p : Params) (i : Invocation)
         (gate logs : list effect) (frames : list StreamEvent)
         (body : string) (result : option value),
    loadPackage w = None ->
    validate p = inr i ->
    race (pid w) gate_start (loop w) = (gate, Value tt) ->
    response w = IoResolves frames 500 body ->
    deliver (verbose_of p) None frames = (logs, Value result) ->
    run w p = (Spawn port :: gate ++ request_of i :: logs,
               Thrown (Error (error_message body))).
Proof.
  intros host w p i gate logs frames body result Hload Hval Hrace Hresp Hdel.
  rewrite (run_requesting w p i gate Hload Hval Hrace).
  unfold receive. rewrite Hresp, Hdel.
  rewrite bind_value. simpl. now rewrite app_nil_r.
Qed.

(** When the poller overtakes the killer and the port answers all the
    same, the child is killed twice. *)
Lemma late_answer_kills_twice :
  let w := Example.world Example.silent
             (IoResolves [Example.frame "@response" Example.payload] 200 "") in
  count is_kill (fst (@run Sample.host w (Example.params [] ["/a/b"] []))) = 2.
Proof. reflexivity. Qed.




(** C5 (the code departs from the claim).  The child stays silent.  The
    watchdog wakes, sets [isTimedOut], calls [killProcess] and awaits it.
    The poller, whose loop also ends on [isTimedOut], wakes before the
    killer has confirmed and returns, which fulfils the race: [run] goes
    on and sends the request, and the timeout error the watchdog throws
    afterwards is lost.  Here the request is refused, and that refusal,
    not a timeout error, is what [run] throws. *)
Theorem silent_child_still_gets_request :
  let w := Example.world Example.silent (IoRejects (Rejection "ECONNREFUSED")) in
  let p := Example.params [] ["/a/b"] [] in
  Forall silent (loop w) /\
  @run Sample.host w p
  = ([Spawn 8199; Kill 4242;
      Request "GET" "http://localhost:8199/a/b" [("_debug", QBool true)] ""],
     Thrown (Rejection "ECONNREFUSED")) /\
  count is_request (fst (@run Sample.host w p)) = 1 /\
  ~ ReadinessTimeoutError (Rejection "ECONNREFUSED").
Proof.
  split; [repeat constructor |]. split; [reflexivity |].
  split; [reflexivity |]. intros E. discriminate E.
Qed.

(** What the claim describes does happen when the killer confirms before
    the poller wakes again: one kill, the timeout error, no request. *)
Lemma timeout_when_killer_is_first :
  forall (host : Host) (w : World) (p : Params) (i : Invocation)
         (before rest : list loop_event),
    loadPackage w = None ->
    validate p = inr i ->
    Forall idle before ->
    loop w = (before ++ WatchdogWake :: KillSettled None :: rest)%list ->
    run w p = ([Spawn port; Kill (pid w)], Thrown (Error timeout_message)).
Proof.
  intros host w p i before rest Hload Hval Hidle Hloop.
  apply (run_gate_closed w p i [Kill (pid w)]); try assumption.
  rewrite Hloop, (race_idle _ _ _ Hidle). apply race_killer_first.
Qed.

Lemma timeout_reported_after_quick_kill :
  let w := Example.world Example.silent_quick_kill
             (IoRejects (Rejection "ECONNREFUSED")) in
  @run Sample.host w (Example.params [] ["/a/b"] [])
  = ([Spawn 8199; Kill 4242], Thrown (Error timeout_message)).
Proof. reflexivity. Qed.

(** And whenever the poller wakes between the watchdog and the killer's
    confirmation, the request is sent. *)
Lemma request_when_poller_is_first :
  forall (host : Host) (w : World) (p : Params) (i : Invocation)
         (before rest : list loop_event),
    loadPackage w = None ->
    validate p = inr i ->
    Forall idle before ->
    loop w = (before ++ WatchdogWake :: PollerWake :: rest)%list ->
    exists trace,
      fst (run w p) = Spawn port :: Kill (pid w) :: request_of i :: trace.
Proof.
  intros host w p i before rest Hload Hval Hidle Hloop.
  rewrite (run_requesting w p i [Kill (pid w)]); try assumption.
  - eexists. reflexivity.
  - rewrite Hloop, (race_idle _ _ _ Hidle). apply race_poller_first.
Qed.

(** C6 (the code departs from the claim).  The code tests for the prefix
    without its trailing space but removes as many characters as the
    prefix with the space has.  A body that starts with the prefix but
    not with the space loses one character of its message: the claim
    leaves such a body as it is.  For the body of the claim's example the
    message is the one the claim gives. *)
Theorem prefix_without_space_loses_a_character :
  let body := "Application Error:boom" in
  let w := Example.world Example.ready (IoResolves [] 500 body) in
  startsWith body "Application Error: " = false /\
  error_message body = "oom" /\
  snd (@run Sample.host w (Example.params [] ["/a/b"] [])) = Thrown (Error "oom") /\
  error_message ("Application Error: boom" ++ nl ++ "stack line 2") = "boom".
Proof. repeat split; reflexivity. Qed.

(** C7, as stated, fails: a parameter that is itself named [_debug] is not
    sent in the query of a GET; the flag takes its place. *)
Lemma debug_parameter_is_overridden :
  let i := {| method := "get"; functionParams := [("_debug", "0")]; pathname := "" |} in
  validate (Example.params [] ["/"] [("_debug", ["0"])]) = inr i /\
  JsObject.get "_debug" (functionParams i) = Some "0" /\
  queryParams_of i = [("_debug", QBool true)] /\
  JsObject.get "_debug" (queryParams_of i) <> Some (QString "0").
Proof. repeat split; try reflexivity. discriminate. Qed.

Lemma get_set_same {A} (k : string) (x : A) (o : JsObject.t A) :
  k <> "__proto__" -> JsObject.get k (JsObject.set k x o) = Some x.
Proof.
  intros Hk. unfold JsObject.set. apply String.eqb_neq in Hk. rewrite Hk.
  apply get_put_same.
Qed.

Lemma get_set_other {A} (k k' : string) (x : A) (o : JsObject.t A) :
  k' <> k -> JsObject.get k' (JsObject.set k x o) = JsObject.get k' o.
Proof.
  intros Hne. unfold JsObject.set. destruct (String.eqb k "__proto__");
    [reflexivity | now apply get_put_other].
Qed.

(** C7 (amended).  With method get or delete the body is empty and the
    query holds the flag [_debug] set to true together with every
    invocation parameter not itself named [_debug], and nothing else; with
    method post or put the query holds the flag alone and the body is the
    parameters as JSON text.  For the parameters of the claim's example
    the query of a GET is x=1 and the flag, and the body of a POST is the
    JSON text of the claim. *)
Theorem parameters_travel_by_method :
  forall i : Invocation,
    let query := queryParams_of i in
    (method i = "get" \/ method i = "delete" ->
     bodyParams_of i = "" /\
     JsObject.get "_debug" query = Some (QBool true) /\
     (forall k v, k <> "_debug" ->
                  JsObject.get k (functionParams i) = Some v ->
                  JsObject.get k query = Some (QString v)) /\
     (forall k, k <> "_debug" ->
                JsObject.get k (functionParams i) = None ->
                JsObject.get k query = None)) /\
    (method i = "post" \/ method i = "put" ->
     query = [("_debug", QBool true)] /\
     bodyParams_of i = JsonText.stringify (functionParams i)) /\
    request_of {| method := "get"; functionParams := [("x", "1")]; pathname := "f" |}
    = Request "GET" "http://localhost:8199/f"
              [("x", QString "1"); ("_debug", QBool true)] "" /\
    request_of {| method := "post"; functionParams := [("x", "1")]; pathname := "f" |}
    = Request "POST" "http://localhost:8199/f" [("_debug", QBool true)]
              ("{" ++ dquote ++ "x" ++ dquote ++ ":" ++ dquote ++ "1" ++ dquote ++ "}").
Proof.
  intros i query. subst query. unfold queryParams_of, bodyParams_of.
  split; [| split; [| split; reflexivity]].
  - intros Hm.
    assert (Hq : (String.eqb (method i) "get" || String.eqb (method i) "delete") = true).
    { destruct Hm as [-> | ->]; reflexivity. }
    assert (Hb : (String.eqb (method i) "post" || String.eqb (method i) "put") = false).
    { destruct Hm as [-> | ->]; reflexivity. }
    rewrite Hq, Hb. split; [reflexivity |]. split.
    + apply get_set_same. discriminate.
    + split.
      * intros k v Hk Hget. rewrite get_set_other by assumption.
        rewrite (get_map QString). now rewrite Hget.
      * intros k Hk Hget. rewrite get_set_other by assumption.
        rewrite (get_map QString). now rewrite Hget.
  - intros Hm.
    assert (Hq : (String.eqb (method i) "get" || String.eqb (method i) "delete") = false).
    { destruct Hm as [-> | ->]; reflexivity. }
    assert (Hb : (String.eqb (method i) "post" || String.eqb (method i) "put") = true).
    { destruct Hm as [-> | ->]; reflexivity. }
    rewrite Hq, Hb. split; reflexivity.
Qed.

Lemma parameters_travel_by_method_witness :
  let i := {| method := "delete"; functionParams := [("x", "1"); ("y", "a b")];
              pathname := "f" |} in
  bodyParams_of i = "" /\
  JsObject.get "_debug" (queryParams_of i) = Some (QBool true) /\
  JsObject.get "y" (queryParams_of i) = Some (QString "a b").
Proof.
  intros i.
  destruct (parameters_travel_by_method i) as [Hquery _].
  destruct (Hquery (or_intror eq_refl)) as (Hbody & Hflag & Hsent & _).
  split; [exact Hbody |]. split; [exact Hflag |].
  apply Hsent; [discriminate | reflexivity].
Defined.

Section Stream.

Context {host : Host}.

Lemma deliver_stdout_then_response
      (verbose : bool) (out resp : StreamEvent) (text : string) (payload : value) :
  event out = "@stdout" ->
  JSON_parse (data out) = Some (JStr text) ->
  event resp = "@response" ->
  JSON_parse (data resp) = Some payload ->
  deliver verbose None [out; resp]
  = (map (stdout_line verbose) (split_lines text), Value (Some payload)).
Proof.
  intros Hout Htext Hresp Hpayload. simpl. unfold callback.
  rewrite Hout, Hresp. simpl String.eqb.
  rewrite (passthrough_string grey verbose "stdout> " _ text Htext).
  unfold parse. rewrite Hpayload.
  rewrite !bind_ret, !bind_value. simpl. rewrite bind_value. simpl.
  now rewrite !app_nil_r.
Qed.

Lemma conclude_success (w : World) (verbose : bool) (i : Invocation)
      (fields : list (string * value)) (b : string) (code : number)
      (statusCode : Z) (body : string) :
  statusCode <> 500%Z ->
  final_kill w = None ->
  JsObject.get "body" fields = Some (JStr b) ->
  JsObject.get "statusCode" fields = Some (JNum code) ->
  conclude w verbose i (Some (JObj fields)) statusCode body
  = (Kill (pid w) :: (if verbose then summary i code else []) ++ [Log (rendering b)],
     Value tt).
Proof.
  intros Hstatus Hkill Hbody Hcode. unfold conclude.
  apply Z.eqb_neq in Hstatus. rewrite Hstatus, Hkill.
  change (property "body" (Some (JObj fields)))
    with (@ret (option value) (JsObject.get "body" fields)).
  rewrite Hbody, bind_ret. simpl call_toString.
  rewrite bind_ret. destruct verbose.
  - unfold report.
    change (property "statusCode" (Some (JObj fields)))
      with (@ret (option value) (JsObject.get "statusCode" fields)).
    rewrite Hcode. reflexivity.
  - reflexivity.
Qed.

End Stream.

(** C9.  The callback handles the frames strictly in the order of their
    arrival: handling a stream is handling its earlier part and then, with
    what that left in [result], its later part.  For a stream of a stdout
    frame followed by a response frame, with a status other than 500,
    [result] ends up as the parsed data of the response frame, the lines
    of the stdout frame are printed first, and the last thing printed is
    the rendering of the body of that parsed response. *)
Theorem stream_is_handled_in_order :
  forall (host : Host) (w : World) (p : Params) (i : Invocation)
         (gate : list effect) (out resp : StreamEvent) (text b : string)
         (fields : list (string * value)) (code : number)
         (statusCode : Z) (body : string),
    loadPackage w = None ->
    validate p = inr i ->
    race (pid w) gate_start (loop w) = (gate, Value tt) ->
    response w = IoResolves [out; resp] statusCode body ->
    statusCode <> 500%Z ->
    final_kill w = None ->
    event out = "@stdout" ->
    JSON_parse (data out) = Some (JStr text) ->
    event resp = "@response" ->
    JSON_parse (data resp) = Some (JObj fields) ->
    JsObject.get "body" fields = Some (JStr b) ->
    JsObject.get "statusCode" fields = Some (JNum code) ->
    (forall verbose earlier later result,
        deliver verbose result (earlier ++ later)
        = (r <- deliver verbose result earlier ;; deliver verbose r later)) /\
    deliver (verbose_of p) None [out; resp]
    = (map (stdout_line (verbose_of p)) (split_lines text), Value (Some (JObj fields))) /\
    run w p
    = (Spawn port :: gate ++ request_of i ::
         map (stdout_line (verbose_of p)) (split_lines text) ++
         Kill (pid w) ::
         (if verbose_of p then summary i code else []) ++
         [Log (rendering b)],
       Value tt).
Proof.
  intros host w p i gate out resp text b fields code statusCode body
         Hload Hval Hrace Hresp Hstatus Hkill Hout Htext Hev Hpayload Hbody Hcode.
  split; [intros; apply deliver_app |].
  pose proof (deliver_stdout_then_response (verbose_of p) out resp text
                (JObj fields) Hout Htext Hev Hpayload) as Hdeliver.
  split; [exact Hdeliver |].
  rewrite (run_requesting w p i gate Hload Hval Hrace).
  unfold receive. rewrite Hresp, Hdeliver, bind_value.
  rewrite (conclude_success w (verbose_of p) i fields b code statusCode body
             Hstatus Hkill Hbody Hcode).
  reflexivity.
Qed.

Lemma stream_is_handled_in_order_witness :
  let w := Example.world Example.ready
             (IoResolves [Example.frame "@stdout" Example.greeting;
                          Example.frame "@response" Example.payload] 200 "") in
  let p := Example.params [] ["/a/b"] [("x", ["1"])] in
  @run Sample.host w p
  = ([Spawn 8199;
      Request "GET" "http://localhost:8199/a/b"
              [("x", QString "1"); ("_debug", QBool true)] "";
      Log "hello";
      Kill 4242;
      Log ("{" ++ nl ++ "  " ++ dquote ++ "ok" ++ dquote ++ ": true" ++ nl ++ "}")],
     Value tt).
Proof.
  intros w p.
  assert (Hstatus : (200 <> 500)%Z) by discriminate.
  exact (proj2 (proj2
    (stream_is_handled_in_order Sample.host w p
       {| method := "get"; functionParams := [("x", "1")]; pathname := "a/b" |}
       []
       (Example.frame "@stdout" Example.greeting)
       (Example.frame "@response" Example.payload)
       "hello"
       ("{" ++ dquote ++ "ok" ++ dquote ++ ":true}")
       [("statusCode", JNum 200%Z); ("headers", JObj []);
        ("body", JStr ("{" ++ dquote ++ "ok" ++ dquote ++ ":true}"))]
       200%Z 200%Z ""
       eq_refl eq_refl eq_refl eq_refl Hstatus eq_refl
       eq_refl eq_refl eq_refl eq_refl eq_refl eq_refl))).
Defined.

(** * Further properties of the run command *)

(** ** The method flag and the pathname *)





(** X2.  Whatever passes validation has one of four methods, and the
    request built from it carries the matching upper-case verb and the
    address of the local server followed by the normalized pathname. *)
Theorem accepted_invocation_has_known_verb :
  forall (p : Params) (i : Invocation),
    validate p = inr i ->
    exists verb : string,
      In (method i, verb)
         [("get", "GET"); ("post", "POST"); ("put", "PUT"); ("delete", "DELETE")] /\
      request_of i
      = Request verb ("http://localhost:8199/" ++ pathname i)
                (queryParams_of i) (bodyParams_of i).
Proof.
  intros p i Hval.
  assert (Hm : check_method p = inr (method i)).
  { unfold validate in Hval. destruct (check_method p) as [e | m]; [discriminate |].
    destruct (normalize_pathname _); [discriminate |].
    now injection Hval as <-. }
  apply check_method_accepts in Hm. destruct Hm as [_ Hm].
  unfold request_of, location.
  destruct Hm as [E | [E | [E | E]]]; rewrite E.
  - exists "GET". split; [simpl; auto | reflexivity].
  - exists "POST". split; [simpl; auto | reflexivity].
  - exists "PUT". split; [simpl; auto | reflexivity].
  - exists "DELETE". split; [simpl; auto 6 | reflexivity].
Qed.

Lemma accepted_invocation_has_known_verb_witness :
  exists verb : string,
    In ("put", verb)
       [("get", "GET"); ("post", "POST"); ("put", "PUT"); ("delete", "DELETE")] /\
    request_of {| method := "put"; functionParams := []; pathname := "a" |}
    = Request verb "http://localhost:8199/a" [("_debug", QBool true)] "{}".
Proof.
  apply (accepted_invocation_has_known_verb
           (Example.params ["Put"] ["./a"] [])
           {| method := "put"; functionParams := []; pathname := "a" |}).
  reflexivity.
Defined.

(** X3.  A pathname that starts with two dots is refused, with a message
    that quotes it as given, before anything is spawned; this holds for
    every method that passes the method check. *)
Theorem dotdot_pathname_refused :
  forall (host : Host) (w : World) (p : Params) (m path : string)
         (rest : list string),
    loadPackage w = None ->
    check_method p = inr m ->
    args p = path :: rest ->
    startsWith path ".." = true ->
    run w p = ([], Thrown (Error (invalid_pathname_message path))).
Proof.
  intros host w p m path rest Hload Hm Hargs Hdots.
  apply run_rejected; [exact Hload |].
  unfold validate. rewrite Hm, Hargs. simpl at0.
  destruct path as [| c path]; [discriminate Hdots |].
  unfold normalize_pathname. simpl or_string. now rewrite Hdots.
Qed.

Lemma dotdot_pathname_refused_witness :
  @run Sample.host (Example.world Example.ready (IoResolves [] 200 ""))
       (Example.params ["post"] ["../etc/passwd"] [])
  = ([], Thrown (Error ("Invalid pathname: " ++ dquote ++ "../etc/passwd" ++ dquote))).
Proof.
  apply (dotdot_pathname_refused Sample.host _ _ "post" "../etc/passwd" []);
    reflexivity.
Defined.

(** ** More on the readiness gate *)

Lemma includes_startsWith (s pattern : string) :
  startsWith s pattern = true -> includes s pattern = true.
Proof. intros Hs. destruct s; simpl; now rewrite Hs. Qed.

Lemma includes_app (before pattern after : string) :
  includes (before ++ pattern ++ after) pattern = true.
Proof.
  induction before as [| c before IH].
  - change ("" ++ pattern ++ after) with (pattern ++ after).
    apply includes_startsWith, startsWith_app.
  - simpl. rewrite IH. apply orb_true_r.
Qed.

Section GateMore.

Variable child : Z.

(** Once [isConnected] is set and the watchdog still sleeps, the race can
    only be fulfilled, and it kills nothing. *)
Lemma race_connected (events : list loop_event) :
  forall g : Gate,
    isConnected g = true ->
    watchdog_at g = Sleeping ->
    race child g events = ([], Unsettled)
    \/ race child g events = ([], Value tt).
Proof.
  induction events as [| ev events IH]; intros g Hc Hw; simpl; [now left |].
  destruct ev as [message | | | err].
  - apply IH; unfold on_stdout; destruct (announces message); simpl; auto.
  - rewrite Hw, Hc. simpl. now right.
  - rewrite Hc. simpl. now right.
  - rewrite Hw. now apply IH.
Qed.

Lemma race_connected_wakes (events : list loop_event) :
  forall g : Gate,
    isConnected g = true ->
    watchdog_at g = Sleeping ->
    In PollerWake events \/ In WatchdogWake events ->
    race child g events = ([], Value tt).
Proof.
  induction events as [| ev events IH]; intros g Hc Hw Hin; simpl.
  - destruct Hin as [[] | []].
  - destruct ev as [message | | | err].
    + apply IH.
      * unfold on_stdout. destruct (announces message); simpl; auto.
      * unfold on_stdout. destruct (announces message); simpl; auto.
      * destruct Hin as [[E | Hin] | [E | Hin]]; try discriminate E; auto.
    + rewrite Hw, Hc. reflexivity.
    + rewrite Hc. reflexivity.
    + rewrite Hw. apply IH; auto.
      destruct Hin as [[E | Hin] | [E | Hin]]; try discriminate E; auto.
Qed.

(** X4.  A chunk of output that contains either readiness line, anywhere
    in it, opens the gate for good: if it arrives before the watchdog
    wakes, the race is fulfilled at the next wake-up of either racer,
    whatever else happens, and the gate kills nothing and never throws. *)
Theorem announced_child_is_never_killed :
  forall (before after : list loop_event) (head tail : string) (line : string),
    line = "*** Listening on localhost:8199"
    \/ line = "Unable to spawn HTTP Workers, listening on port 8199" ->
    Forall idle before ->
    In PollerWake after \/ In WatchdogWake after ->
    race child gate_start (before ++ StdoutData (head ++ line ++ tail) :: after)
    = ([], Value tt).
Proof.
  intros before after head tail line Hline Hidle Hin.
  rewrite (race_idle child _ _ Hidle). simpl.
  assert (Ha : announces (head ++ line ++ tail) = true).
  { unfold announces. destruct Hline as [-> | ->].
    - change ("*** Listening on localhost:" ++ port_text)
        with "*** Listening on localhost:8199".
      now rewrite includes_app.
    - change ("Unable to spawn HTTP Workers, listening on port " ++ port_text)
        with "Unable to spawn HTTP Workers, listening on port 8199".
      rewrite includes_app. apply orb_true_r. }
  unfold on_stdout. rewrite Ha.
  now apply race_connected_wakes.
Qed.

(** While the watchdog sleeps, the race performs no effect but at most
    one kill of the child, and it throws only after that kill. *)
Lemma race_sleeping (events : list loop_event) :
  forall g : Gate,
    watchdog_at g = Sleeping ->
    (fst (race child g events) = [] /\
     forall e, snd (race child g events) <> Thrown e)
    \/ fst (race child g events) = [Kill child].
Proof.
  induction events as [| ev events IH]; intros g Hw; simpl.
  - left. split; [reflexivity | discriminate].
  - destruct ev as [message | | | err].
    + apply IH. unfold on_stdout. destruct (announces message); simpl; auto.
    + rewrite Hw. destruct (isConnected g); simpl.
      * left. split; [reflexivity | discriminate].
      * right.
        match goal with
        | |- context [race child ?g' events] =>
            destruct (race_killing child g' events eq_refl eq_refl) as [-> _]
        end.
        reflexivity.
    + destruct (negb (isConnected g) && negb (isTimedOut g)); simpl.
      * now apply IH.
      * left. split; [reflexivity | discriminate].
    + rewrite Hw. now apply IH.
Qed.

(** X5.  Whatever the event loop dispatches, the gate performs no effect
    other than at most one kill, of the spawned child; it rejects only
    after that kill; and it is fulfilled without a kill only if a
    readiness line was seen. *)
Theorem gate_kills_at_most_once :
  forall events : list loop_event,
    let r := race child gate_start events in
    (fst r = [] \/ fst r = [Kill child]) /\
    (forall e, snd r = Thrown e -> fst r = [Kill child]) /\
    (r = ([], Value tt) -> Exists (fun ev => ~ silent ev) events).
Proof.
  intros events r. subst r.
  destruct (race_sleeping events gate_start eq_refl) as [[Hfst Hsnd] | Hfst].
  - split; [now left |]. split.
    + intros e He. now apply Hsnd in He.
    + intros Hr.
      destruct (Forall_Exists_dec silent) with (l := events) as [Hall | Hex].
      * intros ev. destruct ev as [message | | | err]; simpl; auto.
        destruct (announces message); [right; discriminate | now left].
      * destruct (race_silent child events Hall) as [Hu | Hk].
        -- rewrite Hu in Hr. discriminate Hr.
        -- rewrite Hr in Hk. discriminate Hk.
      * apply Exists_exists in Hex. apply Exists_exists. exact Hex.
  - split; [now right |]. split.
    + intros _ _. exact Hfst.
    + intros Hr. rewrite Hr in Hfst. discriminate Hfst.
Qed.

(** X6.  The gate cannot hang past the timeout: whatever was dispatched
    before, once the watchdog's timer has fired and the poller has woken
    once more, the race has been fulfilled or rejected. *)
Theorem gate_settles_after_timeout :
  forall events : list loop_event,
    snd (race child gate_start (events ++ [WatchdogWake; PollerWake])) = Value tt
    \/ exists e,
        snd (race child gate_start (events ++ [WatchdogWake; PollerWake])) = Thrown e.
Proof.
  intros events.
  pose proof (race_settles child events gate_start (or_introl eq_refl)) as Hs.
  destruct (snd (race child gate_start (events ++ [WatchdogWake; PollerWake])))
    as [[] | e |]; [now left | right; now exists e | contradiction].
Qed.

End GateMore.

Lemma announced_child_is_never_killed_witness :
  race 4242 gate_start
       ([PollerWake; StdoutData "warming up"]
          ++ StdoutData ("[dev] " ++ "Unable to spawn HTTP Workers, listening on port 8199"
                                  ++ nl)
          :: [KillSettled None; StdoutData "GET /"; WatchdogWake; PollerWake])
  = ([], Value tt).
Proof.
  apply (announced_child_is_never_killed 4242
           [PollerWake; StdoutData "warming up"]
           [KillSettled None; StdoutData "GET /"; WatchdogWake; PollerWake]
           "[dev] " nl "Unable to spawn HTTP Workers, listening on port 8199").
  - now right.
  - repeat constructor.
  - right. simpl. auto.
Defined.

(** ** The shape of a run *)


Lemma bind_only {A B} (P : effect -> Prop) (m : M A) (k : A -> M B) :
  Forall P (fst m) ->
  (forall a, Forall P (fst (k a))) ->
  Forall P (fst (bind m k)).
Proof.
  intros Hm Hk. unfold bind. destruct (snd m); simpl; auto.
  apply Forall_app. auto.
Qed.

Lemma for_each_only {A} (P : effect -> Prop) (f : A -> M unit) (l : list A) :
  (forall x, Forall P (fst (f x))) -> Forall P (fst (for_each f l)).
Proof.
  intros Hf. induction l as [| x l IH]; simpl; [constructor |].
  apply bind_only; auto.
Qed.

Lemma count_app (kind : effect -> bool) (s t : list effect) :
  count kind (s ++ t) = count kind s + count kind t.
Proof. unfold count. now rewrite filter_app, length_app. Qed.

Lemma count_logs (kind : effect -> bool) (t : list effect) :
  (forall line, kind (Log line) = false) ->
  Forall (fun e => is_log e = true) t ->
  count kind t = 0.
Proof.
  intros Hkind. induction 1 as [| e t He _ IH]; [reflexivity |].
  destruct e; try discriminate He. unfold count in *. simpl.
  now rewrite Hkind.
Qed.

Section Shape.

Context {host : Host}.

Lemma passthrough_prints (colour : string -> string) (verbose : bool)
      (prefix text : string) :
  Forall printing (fst (passthrough colour verbose prefix text)).
Proof.
  destruct (passthrough_cases colour verbose prefix text)
    as [[lines ->] | [e [-> _]]]; simpl; [| constructor].
  apply Forall_forall. intros x Hx. apply in_map_iff in Hx.
  destruct Hx as [line [<- _]]. reflexivity.
Qed.

Lemma callback_prints (verbose : bool) (result : option value) (e : StreamEvent) :
  Forall printing (fst (callback verbose result e)).
Proof.
  unfold callback.
  destruct (String.eqb (event e) "@response").
  { unfold parse. destruct (JSON_parse (data e)); simpl; constructor. }
  destruct (String.eqb (event e) "@stdout").
  { apply bind_only; [apply passthrough_prints | intros; constructor]. }
  destruct (String.eqb (event e) "@stderr").
  { apply bind_only; [apply passthrough_prints | intros; constructor]. }
  repeat constructor.
Qed.

Lemma deliver_prints (verbose : bool) (frames : list StreamEvent) :
  forall result, Forall printing (fst (deliver verbose result frames)).
Proof.
  induction frames as [| e frames IH]; intros result; simpl; [constructor |].
  apply bind_only; [apply callback_prints | intros; apply IH].
Qed.

Lemma property_silent (name : string) (v : option value) :
  fst (property name v) = [].
Proof. destruct v as [[| b | n | s | l | fields] |]; reflexivity. Qed.

Lemma lift_silent {A} (r : js_error + A) : fst (lift r) = [].
Proof. destruct r; reflexivity. Qed.

Lemma call_toString_silent (v : option value) : fst (call_toString v) = [].
Proof.
  destruct v as [[| b | n | s | l | fields] |]; try reflexivity.
  - simpl. apply lift_silent.
  - simpl. destruct (has_own "toString" fields); reflexivity.
Qed.

Lemma concat_silent (text : string) (v : option value) :
  fst (concat text v) = [].
Proof.
  destruct v as [v |]; [| reflexivity]. unfold concat.
  destruct (ToString v); reflexivity.
Qed.

Lemma report_prints (i : Invocation) (result : option value) :
  Forall printing (fst (report i result)).
Proof.
  unfold report.
  apply bind_only; [repeat constructor | intros _].
  apply bind_only; [repeat constructor | intros _].
  apply bind_only; [rewrite property_silent; constructor | intros status].
  apply bind_only; [rewrite concat_silent; constructor | intros line].
  apply bind_only; [repeat constructor | intros _].
  apply bind_only; [repeat constructor | intros _].
  apply bind_only; [repeat constructor | intros _].
  repeat constructor.
Qed.

(** After the request has settled, [run] performs nothing, or the
    closing kill followed by prints only. *)
Lemma conclude_shape (w : World) (verbose : bool) (i : Invocation)
      (result : option value) (statusCode : Z) (body : string) :
  (fst (conclude w verbose i result statusCode body) = [] /\
   forall u, snd (conclude w verbose i result statusCode body) <> Value u)
  \/ exists printed,
       fst (conclude w verbose i result statusCode body) = Kill (pid w) :: printed /\
       Forall printing printed.
Proof.
  unfold conclude. destruct (Z.eqb statusCode 500).
  { left. split; [reflexivity | discriminate]. }
  destruct (property "body" result) as [t [b | e |]] eqn:Hp;
    pose proof (property_silent "body" result) as Hs; rewrite Hp in Hs;
    simpl in Hs; subst t;
    try (left; split; [reflexivity | discriminate]).
  rewrite bind_value. simpl.
  destruct (call_toString b) as [t [text | e |]] eqn:Hc;
    pose proof (call_toString_silent b) as Hs; rewrite Hc in Hs;
    simpl in Hs; subst t;
    try (left; split; [reflexivity | discriminate]).
  right. rewrite bind_value. simpl. eexists. split; [reflexivity |].
  apply bind_only; [destruct (final_kill w); constructor | intros].
  apply bind_only; [| intros; repeat constructor].
  destruct verbose; [apply report_prints | constructor].
Qed.

End Shape.

Lemma count_cons (kind : effect -> bool) (e : effect) (t : list effect) :
  count kind (e :: t) = (if kind e then 1 else 0) + count kind t.
Proof. unfold count. simpl. now destruct (kind e). Qed.

Lemma count_closing (w : World) (fin : list effect) :
  closing w fin ->
  count is_spawn fin = 0 /\ count is_request fin = 0 /\ count is_kill fin <= 1.
Proof.
  intros [-> | [printed [-> Hp]]]; [repeat split; auto |].
  rewrite !count_cons. simpl.
  rewrite !(count_logs _ printed) by (auto; reflexivity). auto.
Qed.

Lemma count_serving (w : World) (p : Params) (rest : list effect) :
  serving w p rest ->
  count is_spawn rest = 0 /\ count is_request rest <= 1 /\ count is_kill rest <= 1.
Proof.
  intros [-> | (i & logs & fin & _ & -> & Hlogs & Hfin)]; [repeat split; auto |].
  destruct (count_closing w fin Hfin) as (Hs & Hr & Hk).
  rewrite !count_cons, !count_app. unfold request_of. simpl.
  rewrite !(count_logs _ logs) by (auto; reflexivity).
  rewrite Hs, Hr. simpl. repeat split; auto.
Qed.

Section RunShape.

Context {host : Host}.

Lemma receive_shape (w : World) (verbose : bool) (i : Invocation) :
  exists logs fin,
    fst (receive w verbose i) = (logs ++ fin)%list /\
    Forall printing logs /\ closing w fin.
Proof.
  unfold receive. destruct (response w) as [e | frames statusCode body].
  { exists [], []. repeat split; [constructor | now left]. }
  pose proof (deliver_prints verbose frames None) as Hlogs.
  destruct (deliver verbose None frames) as [logs [result | e |]];
    simpl in Hlogs.
  - rewrite bind_value. simpl. exists logs. eexists. split; [reflexivity |].
    split; [exact Hlogs |].
    destruct (conclude_shape w verbose i result statusCode body)
      as [[-> _] | [printed [-> Hp]]]; [now left | right; eauto].
  - exists logs, []. rewrite app_nil_r. repeat split; [exact Hlogs | now left].
  - exists logs, []. rewrite app_nil_r. repeat split; [exact Hlogs | now left].
Qed.

(** X7.  Every run has the same shape, whatever the world does: nothing
    at all; or one spawn, at most one kill by the gate, and then at most
    one request, followed by prints and at most one closing kill after
    which only prints follow.  So a run never spawns twice, never sends
    two requests, kills at most twice, kills only the child it spawned,
    and prints nothing before its request. *)
Theorem run_trace_shape :
  forall (w : World) (p : Params),
    (fst (run w p) = [] \/
     exists gate rest,
       fst (run w p) = Spawn port :: (gate ++ rest)%list /\
       (gate = [] \/ gate = [Kill (pid w)]) /\
       serving w p rest) /\
    count is_spawn (fst (run w p)) <= 1 /\
    count is_request (fst (run w p)) <= 1 /\
    count is_kill (fst (run w p)) <= 2.
Proof.
  intros w p.
  assert (Hshape :
    fst (run w p) = [] \/
    exists gate rest,
      fst (run w p) = Spawn port :: (gate ++ rest)%list /\
      (gate = [] \/ gate = [Kill (pid w)]) /\
      serving w p rest).
  { destruct (loadPackage w) as [e |] eqn:Hload.
    { left. unfold run. now rewrite Hload. }
    destruct (validate p) as [e | i] eqn:Hval.
    { left. now rewrite (run_rejected w p e Hload Hval). }
    right.
    assert (Hgate : fst (race (pid w) gate_start (loop w)) = []
                    \/ fst (race (pid w) gate_start (loop w)) = [Kill (pid w)]).
    { destruct (race_sleeping (pid w) (loop w) gate_start eq_refl)
        as [[Hnone _] | Hone]; auto. }
    destruct (race (pid w) gate_start (loop w)) as [gate [[] | e |]] eqn:Hrace;
      simpl in Hgate.
    - rewrite (run_requesting w p i gate Hload Hval Hrace). simpl.
      destruct (receive_shape w (verbose_of p) i) as (logs & fin & -> & Hlogs & Hfin).
      exists gate. eexists. split; [reflexivity |]. split; [exact Hgate |].
      right. exists i, logs, fin. auto.
    - rewrite (run_gate_closed w p i gate e Hload Hval Hrace). simpl.
      exists gate, []. rewrite app_nil_r. repeat split; [exact Hgate | now left].
    - rewrite (run_accepted w p i Hload Hval), Hrace. simpl.
      exists gate, []. rewrite app_nil_r. repeat split; [exact Hgate | now left]. }
  split; [exact Hshape |].
  destruct Hshape as [-> | (gate & rest & -> & Hgate & Hrest)];
    [repeat split; auto |].
  destruct (count_serving w p rest Hrest) as (Hs & Hr & Hk).
  rewrite !count_cons, !count_app. simpl.
  destruct Hgate as [-> | ->]; rewrite ?count_cons; simpl;
    rewrite Hs; repeat split; lia.
Qed.

End RunShape.

Section Outcomes.

Context {host : Host}.


End Outcomes.



(** X9.  When the HTTP request itself fails, [run] rethrows that failure
    at once: nothing is printed and the child, which the gate let
    through, is not killed. *)
Theorem failed_request_leaves_child_running :
  forall (host : Host) (w : World) (p : Params) (i : Invocation) (e : js_error),
    loadPackage w = None ->
    validate p = inr i ->
    race (pid w) gate_start (loop w) = ([], Value tt) ->
    response w = IoRejects e ->
    run w p = ([Spawn port; request_of i], Thrown e) /\
    count is_kill (fst (run w p)) = 0.
Proof.
  intros host w p i e Hload Hval Hrace Hresp.
  assert (Hrun : run w p = ([Spawn port; request_of i], Thrown e)).
  { rewrite (run_requesting w p i [] Hload Hval Hrace).
    unfold receive. now rewrite Hresp. }
  split; [exact Hrun |]. rewrite Hrun. reflexivity.
Qed.

Lemma failed_request_leaves_child_running_witness :
  let w := Example.world Example.ready (IoRejects (Rejection "ECONNRESET")) in
  let p := Example.params ["put"] ["/a/b"] [] in
  @run Sample.host w p
  = ([Spawn 8199;
      Request "PUT" "http://localhost:8199/a/b" [("_debug", QBool true)] "{}"],
     Thrown (Rejection "ECONNRESET")).
Proof.
  intros w p.
  exact (proj1 (failed_request_leaves_child_running Sample.host w p
                  {| method := "put"; functionParams := []; pathname := "a/b" |}
                  (Rejection "ECONNRESET") eq_refl eq_refl eq_refl eq_refl)).
Defined.

(** X10.  When the closing kill is refused, [run] throws the killer's
    error right after calling it: the result, though received, is never
    printed, in verbose mode no more than otherwise. *)
Theorem refused_kill_hides_the_result :
  forall (host : Host) (w : World) (p : Params) (i : Invocation)
         (gate logs : list effect)
         (frames : list StreamEvent) (statusCode : Z) (body b : string)
         (fields : list (string * value)) (e : js_error),
    loadPackage w = None ->
    validate p = inr i ->
    race (pid w) gate_start (loop w) = (gate, Value tt) ->
    response w = IoResolves frames statusCode body ->
    statusCode <> 500%Z ->
    deliver (verbose_of p) None frames = (logs, Value (Some (JObj fields))) ->
    JsObject.get "body" fields = Some (JStr b) ->
    final_kill w = Some e ->
    run w p = (Spawn port :: gate ++ request_of i :: logs ++ [Kill (pid w)], Thrown e).
Proof.
  intros host w p i gate logs frames statusCode body b fields e
         Hload Hval Hrace Hresp Hstatus Hdeliver Hbody Hkill.
  rewrite (run_requesting w p i gate Hload Hval Hrace).
  unfold receive. rewrite Hresp, Hdeliver, bind_value.
  unfold conclude. apply Z.eqb_neq in Hstatus. rewrite Hstatus.
  change (property "body" (Some (JObj fields)))
    with (@ret (option value) (JsObject.get "body" fields)).
  rewrite Hbody, bind_ret. simpl call_toString. rewrite bind_ret, Hkill.
  reflexivity.
Qed.

Lemma refused_kill_hides_the_result_witness :
  let w := {| loadPackage := None; pid := 7; loop := Example.ready;
              response := IoResolves [Example.frame "@response" Example.payload] 200 "";
              final_kill := Some (Rejection "EPERM") |} in
  let p := {| args := ["/a/b"]; flags := [("v", [])]; vflags := [] |} in
  @run Sample.host w p
  = ([Spawn 8199;
      Request "GET" "http://localhost:8199/a/b" [("_debug", QBool true)] "";
      Kill 7],
     Thrown (Rejection "EPERM")).
Proof.
  intros w p.
  assert (Hstatus : (200 <> 500)%Z) by discriminate.
  exact (refused_kill_hides_the_result Sample.host w p
           {| method := "get"; functionParams := []; pathname := "a/b" |}
           [] [] [Example.frame "@response" Example.payload] 200%Z ""
           ("{" ++ dquote ++ "ok" ++ dquote ++ ":true}")
           [("statusCode", JNum 200%Z); ("headers", JObj []);
            ("body", JStr ("{" ++ dquote ++ "ok" ++ dquote ++ ":true}"))]
           (Rejection "EPERM")
           eq_refl eq_refl eq_refl eq_refl Hstatus eq_refl eq_refl eq_refl).
Defined.


(** ** Lines *)




Lemma includes_nl (c : ascii) (s : string) :
  includes (String c s) nl = Ascii.eqb "010" c || includes s nl.
Proof. simpl. now rewrite andb_true_r. Qed.

Lemma split_lines_single (s : string) :
  Forall (fun line => includes line nl = false) (split_lines s).
Proof.
  induction s as [| c s IH]; simpl; [repeat constructor |].
  destruct (Ascii.eqb c "010") eqn:Ec.
  - constructor; [reflexivity | exact IH].
  - destruct (split_lines s) as [| l ls]; [repeat constructor |].
    + rewrite includes_nl. rewrite Ascii.eqb_sym, Ec. reflexivity.
    + inversion IH as [| ? ? Hl Hls]; subst. constructor; [| exact Hls].
      rewrite includes_nl. now rewrite Ascii.eqb_sym, Ec, Hl.
Qed.

Lemma first_line_single (s : string) : includes (first_line s) nl = false.
Proof.
  unfold first_line. pose proof (split_lines_single s) as H.
  destruct (split_lines s); [reflexivity |]. now inversion H.
Qed.

Lemma first_line_prefix (s : string) : startsWith s (first_line s) = true.
Proof.
  unfold first_line. induction s as [| c s IH]; simpl; [reflexivity |].
  destruct (Ascii.eqb c "010"); [reflexivity |].
  destruct (split_lines s) as [| l ls]; simpl.
  - now rewrite Ascii.eqb_refl.
  - now rewrite Ascii.eqb_refl, IH.
Qed.



(** X12.  The message of the error thrown for a status of 500 is a single
    line, and it is the beginning of the response body, or of what is
    left of the body once the nineteen characters have been dropped from
    a body that starts with the prefix Application Error and a colon. *)
Theorem error_message_is_one_line_of_the_body :
  forall body : string,
    includes (error_message body) nl = false /\
    ((startsWith body "Application Error:" = false /\
      startsWith body (error_message body) = true)
     \/ (startsWith body "Application Error:" = true /\
         startsWith (slice 19 body) (error_message body) = true)).
Proof.
  intros body. unfold error_message.
  destruct (startsWith body "Application Error:") eqn:Hs.
  - split; [apply first_line_single |]. right. split; [reflexivity |].
    apply first_line_prefix.
  - split; [apply first_line_single |]. left. split; [reflexivity |].
    apply first_line_prefix.
Qed.

(** ** More on the stream *)

(** X13.  A later response frame supersedes whatever came before it: once
    the callback has handled a response frame, [result] is the parsed data
    of that frame, and frames of other kinds after it leave it so, unless
    one of them makes the callback throw. *)
Theorem last_response_wins :
  forall (host : Host) (verbose : bool) (earlier later : list StreamEvent)
         (resp : StreamEvent) (logs : list effect)
         (start before : option value) (json : value),
    deliver verbose start earlier = (logs, Value before) ->
    event resp = "@response" ->
    JSON_parse (data resp) = Some json ->
    Forall (fun e => event e <> "@response") later ->
    exists lines : list string,
      fst (deliver verbose start (earlier ++ resp :: later))
      = (logs ++ map Log lines)%list /\
      (snd (deliver verbose start (earlier ++ resp :: later)) = Value (Some json)
       \/ exists err,
           snd (deliver verbose start (earlier ++ resp :: later)) = Thrown err
           /\ raised_by_engine err = true).
Proof.
  intros host verbose earlier later resp logs start before json
         Hearlier Hevent Hparse Hlater.
  assert (Hresp : callback verbose before resp = ret (Some json)).
  { unfold callback. rewrite Hevent. simpl String.eqb.
    unfold parse. now rewrite Hparse, bind_ret. }
  rewrite deliver_app, Hearlier, bind_value. simpl deliver.
  rewrite Hresp, bind_ret.
  destruct (deliver_without_response verbose later Hlater (Some json))
    as [lines [Hfst Hsnd]].
  exists lines. simpl. rewrite Hfst. split; [reflexivity | exact Hsnd].
Qed.

Lemma last_response_wins_witness :
  snd (@deliver Sample.host false None
         ([Example.frame "@response" "1"; Example.frame "@stdout" Example.greeting]
            ++ Example.frame "@response" "[2]"
            :: [Example.frame "progress" "50%"]))
  = Value (Some (JArr [JNum 2%Z])).
Proof.
  destruct (last_response_wins Sample.host false
              [Example.frame "@response" "1"; Example.frame "@stdout" Example.greeting]
              [Example.frame "progress" "50%"]
              (Example.frame "@response" "[2]")
              [Log "hello"] None (Some (JNum 1%Z)) (JArr [JNum 2%Z])
              eq_refl eq_refl eq_refl)
    as [lines [_ [Hok | [err [Herr _]]]]].
  - repeat constructor. simpl. discriminate.
  - exact Hok.
  - discriminate Herr.
Defined.

(** X14.  Frames of a kind the callback does not know are never parsed:
    each is printed as its kind and its data, whatever the data is, the
    callback does not throw on them, and [result] is left as it was. *)
Theorem unknown_frames_are_printed_as_they_are :
  forall (host : Host) (verbose : bool) (frames : list StreamEvent)
         (result : option value),
    Forall (fun e => event e <> "@response" /\ event e <> "@stdout"
                     /\ event e <> "@stderr") frames ->
    deliver verbose result frames
    = (map (fun e => Log (blue (bold (event e ++ "> ") ++ data e))) frames,
       Value result).
Proof.
  intros host verbose frames result. induction 1 as [| e frames He _ IH];
    simpl; [reflexivity |].
  destruct He as (H1 & H2 & H3).
  apply String.eqb_neq in H1, H2, H3.
  assert (Hcb : callback verbose result e
                = ([Log (blue (bold (event e ++ "> ") ++ data e))], Value result)).
  { unfold callback. now rewrite H1, H2, H3. }
  rewrite Hcb, bind_value, IH. reflexivity.
Qed.

Lemma unknown_frames_are_printed_as_they_are_witness :
  @deliver Sample.host true None
           [Example.frame "@progress" "{not json"; Example.frame "" ""]
  = ([Log "@progress> {not json"; Log "> "], Value None).
Proof.
  apply (unknown_frames_are_printed_as_they_are Sample.host true
           [Example.frame "@progress" "{not json"; Example.frame "" ""] None).
  repeat constructor; simpl; discriminate.
Defined.

(** ** The verbose flag *)

Lemma acts_app (s t : list effect) : acts (s ++ t) = (acts s ++ acts t)%list.
Proof. apply filter_app. Qed.

Lemma acts_cons (e : effect) (t t' : list effect) :
  acts t = acts t' -> acts (e :: t) = acts (e :: t').
Proof.
  intros Ht. unfold acts in *. simpl. destruct (negb (is_log e)); congruence.
Qed.

Lemma acts_prints (t : list effect) : Forall printing t -> acts t = [].
Proof.
  induction 1 as [| e t He _ IH]; [reflexivity |].
  unfold acts in *. simpl. unfold printing in He. now rewrite He.
Qed.

Lemma snd_bind_ext {A B} (m m' : M A) (k k' : A -> M B) :
  snd m = snd m' ->
  (forall a, snd (k a) = snd (k' a)) ->
  snd (bind m k) = snd (bind m' k').
Proof.
  intros Hm Hk. unfold bind. rewrite <- Hm.
  destruct (snd m); simpl; auto.
Qed.

Section Verbose.

Context {host : Host}.

Lemma passthrough_outcome (colour colour' : string -> string) (v v' : bool)
      (prefix prefix' text : string) :
  snd (passthrough colour v prefix text) = snd (passthrough colour' v' prefix' text).
Proof.
  unfold passthrough, parse.
  destruct (JSON_parse text) as [[| b | n | s | l | fields] |]; try reflexivity.
  rewrite !bind_ret. simpl split_of. rewrite !bind_ret, !for_each_perform.
  reflexivity.
Qed.

Lemma callback_outcome (v v' : bool) (result : option value) (e : StreamEvent) :
  snd (callback v result e) = snd (callback v' result e).
Proof.
  unfold callback.
  destruct (String.eqb (event e) "@response"); [reflexivity |].
  destruct (String.eqb (event e) "@stdout").
  { apply snd_bind_ext; [apply passthrough_outcome | reflexivity]. }
  destruct (String.eqb (event e) "@stderr").
  { apply snd_bind_ext; [apply passthrough_outcome | reflexivity]. }
  reflexivity.
Qed.

Lemma deliver_outcome (v v' : bool) (frames : list StreamEvent) :
  forall result, snd (deliver v result frames) = snd (deliver v' result frames).
Proof.
  induction frames as [| e frames IH]; intros result; simpl; [reflexivity |].
  apply snd_bind_ext; [apply callback_outcome | intros; apply IH].
Qed.

(** Whether [run] gets as far as the closing kill does not depend on
    the verbose flag. *)
Lemma conclude_acts_alone (w : World) (v : bool) (i : Invocation)
      (result : option value) (statusCode : Z) (body : string) :
  acts (fst (conclude w v i result statusCode body))
  = match snd (b <- property "body" result ;; call_toString b) with
    | Value _ => if Z.eqb statusCode 500 then [] else [Kill (pid w)]
    | _ => []
    end.
Proof.
  unfold conclude. destruct (Z.eqb statusCode 500).
  { destruct (snd (b <- property "body" result ;; call_toString b)); reflexivity. }
  destruct (property "body" result) as [t [b | e |]] eqn:Hp;
    pose proof (property_silent "body" result) as Ht; rewrite Hp in Ht;
    simpl in Ht; subst t; try reflexivity.
  rewrite !bind_value. simpl.
  destruct (call_toString b) as [t [text | e |]] eqn:Hc;
    pose proof (call_toString_silent b) as Ht; rewrite Hc in Ht;
    simpl in Ht; subst t; try reflexivity.
  rewrite bind_value. simpl.
  unfold acts. simpl. f_equal. apply acts_prints.
  apply bind_only; [destruct (final_kill w); constructor | intros _].
  apply bind_only; [| intros; repeat constructor].
  destruct v; [apply report_prints | constructor].
Qed.

Lemma conclude_acts (w : World) (v v' : bool) (i : Invocation)
      (result : option value) (statusCode : Z) (body : string) :
  acts (fst (conclude w v i result statusCode body))
  = acts (fst (conclude w v' i result statusCode body)).
Proof. now rewrite !conclude_acts_alone. Qed.

Lemma receive_acts (w : World) (v v' : bool) (i : Invocation) :
  acts (fst (receive w v i)) = acts (fst (receive w v' i)).
Proof.
  unfold receive. destruct (response w) as [e | frames statusCode body];
    [reflexivity |].
  pose proof (deliver_outcome v v' frames None) as Hout.
  pose proof (deliver_prints v frames None) as Hp.
  pose proof (deliver_prints v' frames None) as Hp'.
  destruct (deliver v None frames) as [logs c];
    destruct (deliver v' None frames) as [logs' c'].
  simpl in Hout, Hp, Hp'. subst c'.
  destruct c as [result | e |].
  - rewrite !bind_value. simpl. rewrite !acts_app.
    rewrite (acts_prints _ Hp), (acts_prints _ Hp'). simpl.
    apply conclude_acts.
  - simpl. now rewrite (acts_prints _ Hp), (acts_prints _ Hp').
  - simpl. now rewrite (acts_prints _ Hp), (acts_prints _ Hp').
Qed.

End Verbose.

(** X15.  The verbose flag, and any flag other than the method flag, only
    changes what is printed: two command lines with the same arguments,
    the same named flags and the same method flag spawn, kill and request
    exactly alike in every world. *)
Theorem other_flags_only_change_the_printing :
  forall (host : Host) (w : World) (p q : Params),
    args p = args q ->
    vflags p = vflags q ->
    JsObject.get "m" (flags p) = JsObject.get "m" (flags q) ->
    acts (fst (run w p)) = acts (fst (run w q)).
Proof.
  intros host w p q Hargs Hvflags Hm.
  assert (Hval : validate p = validate q).
  { unfold validate, check_method, method_of. now rewrite Hargs, Hvflags, Hm. }
  destruct (loadPackage w) as [e |] eqn:Hload.
  { unfold run. now rewrite Hload. }
  destruct (validate q) as [e | i] eqn:Hq.
  { now rewrite (run_rejected w p e Hload Hval), (run_rejected w q e Hload Hq). }
  destruct (race (pid w) gate_start (loop w)) as [gate [[] | e |]] eqn:Hrace.
  - rewrite (run_requesting w p i gate Hload Hval Hrace).
    rewrite (run_requesting w q i gate Hload Hq Hrace). simpl.
    f_equal. rewrite !acts_app. f_equal.
    apply acts_cons. apply receive_acts.
  - now rewrite (run_gate_closed w p i gate e Hload Hval Hrace),
                (run_gate_closed w q i gate e Hload Hq Hrace).
  - rewrite (run_accepted w p i Hload Hval), (run_accepted w q i Hload Hq), Hrace.
    reflexivity.
Qed.

Lemma other_flags_only_change_the_printing_witness :
  let w := Example.world Example.ready
             (IoResolves [Example.frame "@stdout" Example.greeting;
                          Example.frame "@response" Example.payload] 200 "") in
  let p := {| args := ["/a"]; flags := [("m", ["post"])]; vflags := [("x", ["1"])] |} in
  let q := {| args := ["/a"]; flags := [("v", []); ("m", ["post"]); ("z", ["9"])];
              vflags := [("x", ["1"])] |} in
  acts (fst (@run Sample.host w p)) = acts (fst (@run Sample.host w q)) /\
  count is_log (fst (@run Sample.host w p)) = 2 /\
  count is_log (fst (@run Sample.host w q)) = 8.
Proof.
  intros w p q. split; [| split; reflexivity].
  apply (other_flags_only_change_the_printing Sample.host w p q); reflexivity.
Defined.

(** * Properties of the login command *)

(** ** The address of the registry *)

Lemma with_scheme_kept (address : string) :
  startsWith address "http://" = true \/ startsWith address "https://" = true ->
  Login.with_scheme address = address.
Proof.
  unfold Login.with_scheme. intros [H | H]; rewrite H; [reflexivity |].
  now rewrite andb_false_r.
Qed.

Lemma with_scheme_added (address : string) :
  startsWith address "http://" = false ->
  startsWith address "https://" = false ->
  Login.with_scheme address
  = (if startsWith address "localhost" then "http://" else "https://") ++ address.
Proof.
  unfold Login.with_scheme. intros -> ->. cbn [negb andb].
  now destruct (startsWith address "localhost").
Qed.

(** X16.  The address the login command posts to always carries a
    scheme: an address given with one is kept as it is, an address that
    starts with localhost gets plain HTTP, any other gets HTTPS; putting
    the scheme on is idempotent. *)
Theorem address_always_has_a_scheme :
  forall address : string,
    let a := Login.with_scheme address in
    (startsWith a "http://" = true \/ startsWith a "https://" = true) /\
    Login.with_scheme a = a /\
    (startsWith address "http://" = true \/ startsWith address "https://" = true ->
     a = address) /\
    (startsWith address "http://" = false ->
     startsWith address "https://" = false ->
     a = (if startsWith address "localhost" then "http://" else "https://")
           ++ address).
Proof.
  intros address a.
  assert (Hscheme : startsWith a "http://" = true \/ startsWith a "https://" = true).
  { subst a.
    destruct (startsWith address "http://") eqn:H1.
    { rewrite with_scheme_kept by auto. auto. }
    destruct (startsWith address "https://") eqn:H2.
    { rewrite with_scheme_kept by auto. auto. }
    rewrite (with_scheme_added address H1 H2).
    destruct (startsWith address "localhost").
    - left. exact (startsWith_app "http://" address).
    - right. exact (startsWith_app "https://" address). }
  split; [exact Hscheme |].
  split; [now apply with_scheme_kept |].
  split; [apply with_scheme_kept | apply with_scheme_added].
Qed.

(** ** The credentials *)

Lemma trim_start_blank (s : string) :
  Login.blank s = true -> Login.trim_start s = "".
Proof.
  induction s as [| c s IH]; simpl; [reflexivity |].
  destruct (Login.is_space c); simpl; [exact IH | discriminate].
Qed.

Lemma trim_start_kept (s : string) :
  Login.blank s = false ->
  exists c r, Login.trim_start s = String c r /\ Login.is_space c = false.
Proof.
  induction s as [| c s IH]; simpl; [discriminate |].
  destruct (Login.is_space c) eqn:Hc; simpl.
  - exact IH.
  - intros _. now exists c, s.
Qed.

Lemma trim_end_kept (c : ascii) (r : string) :
  Login.is_space c = false -> Login.trim_end (String c r) <> "".
Proof.
  intros Hc. simpl. destruct (Login.trim_end r); [| discriminate].
  rewrite Hc. discriminate.
Qed.

Lemma trim_blank (s : string) : Login.trim s = "" <-> Login.blank s = true.
Proof.
  unfold Login.trim. split.
  - intros Ht. destruct (Login.blank s) eqn:Hb; [reflexivity |].
    destruct (trim_start_kept s Hb) as (c & r & Hs & Hc).
    rewrite Hs in Ht. now apply trim_end_kept in Ht.
  - intros Hb. now rewrite (trim_start_blank s Hb).
Qed.

(** X17.  A credential is asked for exactly when the command line gives
    none or only white space; otherwise it is sent, trimmed, and not
    asked for.  Each of the two credentials is either asked for or sent,
    never both and never neither. *)
Theorem blank_credentials_are_asked_for :
  forall (p : Params),
    let email := Login.credential "email" p in
    let password := Login.credential "password" p in
    let asked := Login.inquireList_of email password in
    let sent := Login.requestParams_of email password in
    (if Login.blank (Login.given "email" p)
     then In Login.ask_username asked /\ JsObject.get "username" sent = None
     else ~ In Login.ask_username asked /\
          JsObject.get "username" sent = Some (Login.trim (Login.given "email" p))) /\
    (if Login.blank (Login.given "password" p)
     then In Login.ask_password asked /\ JsObject.get "password" sent = None
     else ~ In Login.ask_password asked /\
          JsObject.get "password" sent
          = Some (Login.trim (Login.given "password" p))) /\
    List.length asked + List.length sent = 2.
Proof.
  intros p email password asked sent. subst asked sent email password.
  unfold Login.credential. fold (Login.given "email" p). fold (Login.given "password" p).
  pose proof (trim_blank (Login.given "email" p)) as He.
  pose proof (trim_blank (Login.given "password" p)) as Hp.
  unfold Login.inquireList_of, Login.requestParams_of.
  destruct (Login.blank (Login.given "email" p));
    destruct (Login.blank (Login.given "password" p)).
  - rewrite (proj2 He eq_refl), (proj2 Hp eq_refl). simpl. repeat split; auto.
  - rewrite (proj2 He eq_refl).
    assert (Hn : Login.trim (Login.given "password" p) <> "").
    { intros E. apply Hp in E. discriminate E. }
    destruct (Login.trim (Login.given "password" p)) as [| c r];
      [contradiction |].
    simpl. repeat split; auto.
    intros [E | []]. discriminate E.
  - rewrite (proj2 Hp eq_refl).
    assert (Hn : Login.trim (Login.given "email" p) <> "").
    { intros E. apply He in E. discriminate E. }
    destruct (Login.trim (Login.given "email" p)) as [| c r];
      [contradiction |].
    simpl. repeat split; auto.
    intros [E | []]. discriminate E.
  - assert (Hn : Login.trim (Login.given "email" p) <> "").
    { intros E. apply He in E. discriminate E. }
    assert (Hn' : Login.trim (Login.given "password" p) <> "").
    { intros E. apply Hp in E. discriminate E. }
    destruct (Login.trim (Login.given "email" p)) as [| c r];
      [contradiction |].
    destruct (Login.trim (Login.given "password" p)) as [| c' r'];
      [contradiction |].
    simpl. repeat split; auto.
Qed.

(** ** What is posted *)

Lemma get_absent {A} (k : string) (o : JsObject.t A) :
  ~ In k (JsObject.keys o) -> JsObject.get k o = None.
Proof.
  induction o as [| [k' v] o IH]; simpl; [reflexivity |].
  intros Hk. destruct (String.eqb k k') eqn:E.
  - apply String.eqb_eq in E. subst. tauto.
  - apply IH. tauto.
Qed.

Lemma spread_get {A} (k : string) (o : JsObject.t A) :
  NoDup (JsObject.keys o) ->
  forall acc,
    JsObject.get k (Login.spread o acc)
    = match JsObject.get k o with
      | Some v => Some v
      | None => JsObject.get k acc
      end.
Proof.
  unfold Login.spread.
  induction o as [| [k' v] o IH]; intros Hnd acc; simpl; [reflexivity |].
  simpl in Hnd. apply NoDup_cons_iff in Hnd. destruct Hnd as [Hk Hnd].
  rewrite (IH Hnd). destruct (String.eqb k k') eqn:E.
  - apply String.eqb_eq in E. subst k'.
    rewrite (get_absent k o Hk). apply get_put_same.
  - apply String.eqb_neq in E.
    destruct (JsObject.get k o); [reflexivity |]. now apply get_put_other.
Qed.

Lemma requestParams_distinct (email password : string) :
  NoDup (JsObject.keys (Login.requestParams_of email password)).
Proof.
  unfold Login.requestParams_of.
  destruct (truthy email); destruct (truthy password); simpl;
    repeat constructor; simpl; intuition discriminate.
Qed.

(** X18.  What is posted always says [grant_type: password], whatever was
    answered at the prompt; for every other key an answer from the prompt
    takes precedence over a credential from the command line, and nothing
    else is posted. *)
Theorem posted_parameters_merge :
  forall (email password : string) (loginResult : JsObject.t string),
    NoDup (JsObject.keys loginResult) ->
    let posted :=
      Login.sendParams_of (Login.requestParams_of email password) loginResult in
    JsObject.get "grant_type" posted = Some "password" /\
    forall k, k <> "grant_type" ->
      JsObject.get k posted
      = match JsObject.get k loginResult with
        | Some v => Some v
        | None => JsObject.get k (Login.requestParams_of email password)
        end.
Proof.
  intros email password loginResult Hnd posted. subst posted.
  unfold Login.sendParams_of. split; [apply get_put_same |].
  intros k Hk. rewrite get_put_other by assumption.
  rewrite (spread_get k loginResult Hnd).
  destruct (JsObject.get k loginResult); [reflexivity |].
  rewrite (spread_get k _ (requestParams_distinct email password)).
  now destruct (JsObject.get k (Login.requestParams_of email password)).
Qed.

Lemma posted_parameters_merge_witness :
  let posted :=
    Login.sendParams_of (Login.requestParams_of "ada" "")
                        [("password", "pw"); ("grant_type", "implicit");
                         ("username", "grace")] in
  JsObject.get "grant_type" posted = Some "password" /\
  JsObject.get "username" posted = Some "grace" /\
  JsObject.get "password" posted = Some "pw".
Proof.
  intros posted.
  assert (Hnd : NoDup (JsObject.keys [("password", "pw"); ("grant_type", "implicit");
                                      ("username", "grace")])).
  { repeat constructor; simpl; intuition discriminate. }
  destruct (posted_parameters_merge "ada" ""
              [("password", "pw"); ("grant_type", "implicit"); ("username", "grace")]
              Hnd) as [Hgrant Hother].
  split; [exact Hgrant |]. split.
  - rewrite Hother by discriminate. reflexivity.
  - rewrite Hother by discriminate. reflexivity.
Defined.

(** ** The reply *)

Section LoginReply.

Context {host : Host} {setting : Login.Setting}.

Lemma login_run_unfold (w : Login.World) (p : Params) :
  Login.run w p
  = match Login.answers w with
    | inl e => ([Login.prompt_of p], Thrown e)
    | inr loginResult =>
        match Login.reply w with
        | inl e => ([Login.prompt_of p; Login.post_of p loginResult], Thrown e)
        | inr result =>
            let after :=
              if negb (Z.eqb (fst result) 200) then Login.refusal (snd result)
              else Login.welcome w (Login.address_of p) (snd result) in
            (Login.prompt_of p :: Login.post_of p loginResult :: fst after,
             snd after)
        end
    end.
Proof.
  unfold Login.run, Login.prompt_of, Login.post_of.
  destruct (Login.answers w) as [e | loginResult]; [reflexivity |].
  destruct (Login.reply w) as [e | result]; reflexivity.
Qed.

Lemma then_settle_inr {A B} (a : A) (k : A -> Login.L B) :
  Login.then_ (Login.settle (inr a)) k = k a.
Proof. unfold Login.then_. simpl. now destruct (k a). Qed.

Lemma then_settle_inl {A B} (e : js_error) (k : A -> Login.L B) :
  Login.then_ (Login.settle (inl e)) k = ([], Thrown e).
Proof. reflexivity. Qed.

Lemma then_does {B} (e : Login.effect) (k : unit -> Login.L B) :
  Login.then_ (Login.does e) k = (e :: fst (k tt), snd (k tt)).
Proof. reflexivity. Qed.

(** A refusal performs nothing and always throws. *)
Lemma refusal_throws (data : option value) :
  exists e, Login.refusal data = ([], Thrown e).
Proof.
  unfold Login.refusal.
  destruct (Login.member "error" data) as [e | err];
    [now exists e | rewrite then_settle_inr].
  destruct (Login.member "message" err) as [e | message];
    [now exists e | rewrite then_settle_inr].
  destruct (Login.member "details" err) as [e | found];
    [now exists e | rewrite then_settle_inr].
  cbv zeta.
  destruct (Login.detail_lines _) as [e | more];
    [now exists e | rewrite then_settle_inr].
  destruct (Login.interpolate message) as [e | text];
    [now exists e | rewrite then_settle_inr].
  eexists. reflexivity.
Qed.

(** X19.  A reply with a status other than 200 makes the command throw
    after the prompt and the post, whatever the reply carries: nothing is
    printed and no settings are stored. *)
Theorem refused_login_stores_nothing :
  forall (w : Login.World) (p : Params) (loginResult : JsObject.t string)
         (statusCode : Z) (data : option value),
    Login.answers w = inr loginResult ->
    Login.reply w = inr (statusCode, data) ->
    statusCode <> 200%Z ->
    exists e,
      Login.run w p
      = ([Login.prompt_of p; Login.post_of p loginResult], Thrown e).
Proof.
  intros w p loginResult statusCode data Hanswers Hreply Hstatus.
  rewrite login_run_unfold, Hanswers, Hreply. simpl fst. simpl snd.
  apply Z.eqb_neq in Hstatus. rewrite Hstatus. simpl negb. cbv iota zeta.
  destruct (refusal_throws data) as [e ->]. now exists e.
Qed.

Lemma detail_lines_plain (items : list (string * string)) :
  Login.detail_lines
    (map (fun kt => (fst kt, JObj [("message", JStr (snd kt))])) items)
  = inr (map (fun kt => "- " ++ bold (fst kt) ++ ": " ++ snd kt) items).
Proof.
  induction items as [| [k t] items IH]; simpl; [reflexivity |].
  unfold Login.detail_line. simpl. now rewrite IH.
Qed.

(** X20.  For a refusal of the usual form, an error with a message and
    with details that each carry a message, the command throws an error
    whose message is the error's message followed, when there are
    details, by an empty line and one line per detail, in their order,
    naming the detail and giving its message. *)
Theorem refusal_lists_the_details :
  forall (fields error : list (string * value)) (message : string)
         (items : list (string * string)),
    JsObject.get "error" fields = Some (JObj error) ->
    JsObject.get "message" error = Some (JStr message) ->
    JsObject.get "details" error
    = Some (JObj (map (fun kt => (fst kt, JObj [("message", JStr (snd kt))])) items)) ->
    Login.refusal (Some (JObj fields))
    = ([], Thrown (Error
                     (message ++
                      match items with
                      | [] => ""
                      | _ => nl ++ nl ++
                             join nl (map (fun kt => "- " ++ bold (fst kt) ++ ": "
                                                          ++ snd kt) items)
                      end))).
Proof.
  intros fields error message items Herror Hmessage Hdetails.
  unfold Login.refusal.
  change (Login.member "error" (Some (JObj fields)))
    with (@inr js_error _ (JsObject.get "error" fields)).
  rewrite Herror, then_settle_inr.
  change (Login.member "message" (Some (JObj error)))
    with (@inr js_error _ (JsObject.get "message" error)).
  rewrite Hmessage, then_settle_inr.
  change (Login.member "details" (Some (JObj error)))
    with (@inr js_error _ (JsObject.get "details" error)).
  rewrite Hdetails, then_settle_inr.
  cbn [truthy_value Login.entries]. cbv zeta.
  rewrite detail_lines_plain, then_settle_inr.
  cbn [Login.interpolate ToString]. rewrite then_settle_inr.
  destruct items; reflexivity.
Qed.

End LoginReply.

Lemma refused_login_stores_nothing_witness :
  let w := @Login.Build_World Sample.host
             (inr [("username", "u"); ("password", "pw")])
             (inr (401%Z, Some Login.refused)) None in
  exists e,
    @Login.run Sample.host Login.sample w (Login.params ["example.org"] [])
    = ([Login.Prompt [Login.ask_username; Login.ask_password];
        Login.Post "https://example.org/auth"
                   [("username", "u"); ("password", "pw");
                    ("grant_type", "password")]],
       Thrown e).
Proof.
  intros w.
  assert (Hstatus : (401 <> 200)%Z) by discriminate.
  exact (@refused_login_stores_nothing Sample.host Login.sample w
           (Login.params ["example.org"] [])
           [("username", "u"); ("password", "pw")] 401%Z (Some Login.refused)
           eq_refl eq_refl Hstatus).
Defined.

Lemma refusal_lists_the_details_witness :
  @Login.refusal Sample.host (Some Login.refused)
  = ([], Thrown (Error ("Invalid credentials" ++ nl ++ nl
                          ++ "- username: unknown" ++ nl
                          ++ "- password: too short"))).
Proof.
  exact (@refusal_lists_the_details Sample.host
           [("error",
             JObj [("message", JStr "Invalid credentials");
                   ("details",
                    JObj [("username", JObj [("message", JStr "unknown")]);
                          ("password", JObj [("message", JStr "too short")])])])]
           [("message", JStr "Invalid credentials");
            ("details",
             JObj [("username", JObj [("message", JStr "unknown")]);
                   ("password", JObj [("message", JStr "too short")])])]
           "Invalid credentials"
           [("username", "unknown"); ("password", "too short")]
           eq_refl eq_refl eq_refl).
Defined.

(** ** The shape of a login *)

Section LoginShape.

Context {host : Host} {setting : Login.Setting}.

Variable w : Login.World.

Lemma finishes_settle {A} (r : js_error + A) (k : A -> Login.L unit) :
  (forall a, Login.finishes w (k a)) ->
  Login.finishes w (Login.then_ (Login.settle r) k).
Proof.
  intros Hk. destruct r as [e | a].
  - rewrite then_settle_inl. exists false.
    split; [constructor | discriminate].
  - rewrite then_settle_inr. apply Hk.
Qed.

Lemma finishes_print (line : string) (k : unit -> Login.L unit) :
  Login.finishes w (k tt) ->
  Login.finishes w (Login.then_ (Login.does (Login.Print line)) k).
Proof.
  intros [stored [Hc Hv]]. rewrite then_does. exists stored.
  split; [now constructor | exact Hv].
Qed.

Lemma closes_app (stored : bool) (prints rest : list Login.effect) :
  Login.closes false prints -> Login.closes stored rest ->
  Login.closes stored (prints ++ rest).
Proof.
  intros Hp Hr. remember false as b eqn:Hb.
  induction Hp as [| data | b line t Ht IH]; simpl.
  - exact Hr.
  - discriminate Hb.
  - constructor. now apply IH.
Qed.

Lemma finishes_after_prints (m : Login.L unit) (k : unit -> Login.L unit) :
  Login.closes false (fst m) ->
  Login.finishes w (k tt) ->
  Login.finishes w (Login.then_ m k).
Proof.
  intros Hm [stored [Hc Hv]]. unfold Login.then_.
  destruct m as [t [[] | e |]]; simpl in *.
  - exists stored. split; [now apply closes_app | exact Hv].
  - exists false. split; [exact Hm | discriminate].
  - exists false. split; [exact Hm | discriminate].
Qed.

Lemma prints_settle {A} (r : js_error + A) (k : A -> Login.L unit) :
  (forall a, Login.closes false (fst (k a))) ->
  Login.closes false (fst (Login.then_ (Login.settle r) k)).
Proof.
  intros Hk. destruct r as [e | a].
  - rewrite then_settle_inl. constructor.
  - rewrite then_settle_inr. apply Hk.
Qed.

Lemma welcome_finishes (address : string) (user : option value) :
  Login.finishes w (Login.welcome w address user).
Proof.
  unfold Login.welcome.
  apply finishes_settle; intros tokens.
  apply finishes_settle; intros token.
  apply finishes_print. apply finishes_print.
  apply finishes_settle; intros email.
  apply finishes_settle; intros shown.
  apply finishes_print.
  apply finishes_settle; intros memberships.
  apply finishes_after_prints.
  { destruct (Login.holds memberships && _); [| constructor].
    apply prints_settle; intros first.
    apply prints_settle; intros organization.
    apply prints_settle; intros called.
    apply prints_settle; intros shown'.
    repeat constructor. }
  apply finishes_settle; intros created.
  apply finishes_settle; intros shown'.
  apply finishes_print. apply finishes_print.
  apply finishes_settle; intros key.
  rewrite then_does. exists true. split.
  - destruct (Login.written w); constructor.
  - destruct (Login.written w); [discriminate | auto].
Qed.

Lemma closes_stored (after : list Login.effect) :
  Login.closes true after ->
  exists lines data, after = (map Login.Print lines ++ [Login.Store data])%list.
Proof.
  intros Hc. remember true as b eqn:Hb.
  induction Hc as [| data | b line t Ht IH].
  - discriminate Hb.
  - now exists [], data.
  - destruct (IH Hb) as (lines & data & ->). now exists (line :: lines), data.
Qed.

Lemma closes_printed (after : list Login.effect) :
  Login.closes false after -> exists lines, after = map Login.Print lines.
Proof.
  intros Hc. remember false as b eqn:Hb.
  induction Hc as [| data | b line t Ht IH].
  - now exists [].
  - discriminate Hb.
  - destruct (IH Hb) as (lines & ->). now exists (line :: lines).
Qed.

End LoginShape.

(** X21.  Every login has the same shape: it opens with the one prompt;
    if the prompt is answered it posts once; after the post it only
    prints, except that settings may be stored, once and as the very last
    effect, and only when the reply had status 200.  It returns normally
    only after having stored the settings without an error. *)
Theorem login_trace_shape :
  forall (host : Host) (setting : Login.Setting) (w : Login.World) (p : Params),
    (exists tail,
        fst (Login.run w p) = Login.prompt_of p :: tail /\
        (tail = [] \/
         exists loginResult lines,
           Login.answers w = inr loginResult /\
           (tail = Login.post_of p loginResult :: map Login.Print lines
            \/ exists data stored,
                tail = Login.post_of p loginResult
                         :: (map Login.Print lines ++ [Login.Store stored])%list
                /\ Login.reply w = inr (200%Z, data)))) /\
    (snd (Login.run w p) = Value tt ->
     Login.written w = None /\
     exists loginResult data lines stored,
       Login.answers w = inr loginResult /\
       Login.reply w = inr (200%Z, data) /\
       fst (Login.run w p)
       = Login.prompt_of p :: Login.post_of p loginResult
           :: (map Login.Print lines ++ [Login.Store stored])%list).
Proof.
  intros host setting w p. rewrite login_run_unfold.
  destruct (Login.answers w) as [e | loginResult].
  { split; [| discriminate]. exists []. split; [reflexivity | now left]. }
  destruct (Login.reply w) as [e | [statusCode data]].
  { split; [| discriminate]. eexists. split; [reflexivity |].
    right. exists loginResult, []. split; [reflexivity | now left]. }
  simpl fst. simpl snd. cbv zeta.
  destruct (Z.eqb statusCode 200) eqn:Hs; simpl negb; cbv iota.
  - apply Z.eqb_eq in Hs. subst statusCode.
    destruct (welcome_finishes w (Login.address_of p) data) as [stored [Hc Hv]].
    split.
    + eexists. split; [reflexivity |]. right. exists loginResult.
      destruct stored.
      * destruct (closes_stored _ Hc) as (lines & stored & ->).
        exists lines. split; [reflexivity |]. right. now exists data, stored.
      * destruct (closes_printed _ Hc) as (lines & ->).
        exists lines. split; [reflexivity |]. now left.
    + intros Hret. destruct (Hv Hret) as [-> Hw]. split; [exact Hw |].
      destruct (closes_stored _ Hc) as (lines & stored & ->).
      now exists loginResult, data, lines, stored.
  - destruct (refusal_throws data) as [e ->]. split; [| discriminate].
    eexists. split; [reflexivity |]. right. exists loginResult, [].
    split; [reflexivity | now left].
Qed.

Section LoginSuccess.

Context {host : Host} {setting : Login.Setting}.

Lemma then_settle_value {A B} (r : js_error + A) (a : A) (k : A -> Login.L B)
      (t : list Login.effect) (c : completion B) :
  r = inr a -> k a = (t, c) -> Login.then_ (Login.settle r) k = (t, c).
Proof. intros -> Hk. now rewrite then_settle_inr. Qed.

Lemma then_does_value {B} (e : Login.effect) (k : unit -> Login.L B)
      (t : list Login.effect) (c : completion B) :
  k tt = (t, c) -> Login.then_ (Login.does e) k = (e :: t, c).
Proof. intros Hk. now rewrite then_does, Hk. Qed.

Lemma then_unit {A B} (a : A) (k : A -> Login.L B) :
  Login.then_ (Login.unit_ a) k = k a.
Proof. unfold Login.then_. simpl. now destruct (k a). Qed.

Lemma welcome_plain_user
      (w : Login.World) (address : string)
      (fields token : list (string * value)) (others : list value)
      (email created : string) (key : value) :
  Login.written w = None ->
  JsObject.get "accessTokens" fields = Some (JArr (JObj token :: others)) ->
  JsObject.get "email" fields = Some (JStr email) ->
  JsObject.get "memberships" fields = None ->
  JsObject.get "created_at" token = Some (JStr created) ->
  JsObject.get "key" token = Some key ->
  Login.welcome w address (Some (JObj fields))
  = ([Login.Print "";
      Login.Print (bold (Login.cyan "Logged in" ++ " to "
                           ++ Login.green "Instant.bot" ++ " successfully!"));
      Login.Print (bold "email" ++ ":    " ++ email);
      Login.Print (bold "login at" ++ ": " ++ created);
      Login.Print "";
      Login.Store
        ([("email", Some (JStr email)); ("key", Some key)]
           ++ (if String.eqb address Login.BASE_URL then []
               else [("host", Some (JStr address))]))%list],
     Value tt).
Proof.
  intros Hwritten Htokens Hemail Hmemberships Hcreated Hkey.
  unfold Login.welcome.
  eapply then_settle_value;
    [cbn [Login.member]; rewrite Htokens; reflexivity | cbv beta].
  eapply (then_settle_value _ (Some (JObj token))); [reflexivity | cbv beta].
  apply then_does_value. apply then_does_value.
  eapply then_settle_value;
    [cbn [Login.member]; rewrite Hemail; reflexivity | cbv beta].
  eapply (then_settle_value _ email); [reflexivity | cbv beta].
  apply then_does_value.
  eapply then_settle_value;
    [cbn [Login.member]; rewrite Hmemberships; reflexivity | cbv beta].
  cbn [Login.holds andb]. rewrite then_unit.
  eapply then_settle_value;
    [cbn [Login.member]; rewrite Hcreated; reflexivity | cbv beta].
  eapply (then_settle_value _ created); [reflexivity | cbv beta].
  apply then_does_value. apply then_does_value.
  eapply then_settle_value;
    [cbn [Login.member]; rewrite Hkey; reflexivity | cbv beta].
  apply then_does_value. now rewrite Hwritten.
Qed.

Lemma login_run_welcomed (w : Login.World) (p : Params)
      (loginResult : JsObject.t string) (data : option value)
      (t : list Login.effect) (c : completion unit) :
  Login.answers w = inr loginResult ->
  Login.reply w = inr (200%Z, data) ->
  Login.welcome w (Login.address_of p) data = (t, c) ->
  Login.run w p = (Login.prompt_of p :: Login.post_of p loginResult :: t, c).
Proof.
  intros Hanswers Hreply Hwelcome.
  rewrite login_run_unfold, Hanswers, Hreply.
  cbn [fst snd]. change (negb (200 =? 200)%Z) with false. cbv iota zeta.
  now rewrite Hwelcome.
Qed.

End LoginSuccess.

(** X22.  For a reply with status 200 whose data is a user with an
    e-mail, at least one access token and no memberships, the command
    greets, prints the e-mail and the time of the login, and then stores
    the e-mail and the key of the first token; the address of the
    registry is stored with them exactly when it is not the default
    one. *)
Theorem successful_login_stores_the_key :
  forall (host : Host) (setting : Login.Setting) (w : Login.World) (p : Params)
         (loginResult : JsObject.t string)
         (fields token : list (string * value)) (others : list value)
         (email created : string) (key : value),
    Login.answers w = inr loginResult ->
    Login.reply w = inr (200%Z, Some (JObj fields)) ->
    Login.written w = None ->
    JsObject.get "accessTokens" fields = Some (JArr (JObj token :: others)) ->
    JsObject.get "email" fields = Some (JStr email) ->
    JsObject.get "memberships" fields = None ->
    JsObject.get "created_at" token = Some (JStr created) ->
    JsObject.get "key" token = Some key ->
    Login.run w p
    = ([Login.prompt_of p;
        Login.post_of p loginResult;
        Login.Print "";
        Login.Print (bold (Login.cyan "Logged in" ++ " to "
                             ++ Login.green "Instant.bot" ++ " successfully!"));
        Login.Print (bold "email" ++ ":    " ++ email);
        Login.Print (bold "login at" ++ ": " ++ created);
        Login.Print "";
        Login.Store
          ([("email", Some (JStr email)); ("key", Some key)]
             ++ (if String.eqb (Login.address_of p) Login.BASE_URL then []
                 else [("host", Some (JStr (Login.address_of p)))]))%list],
       Value tt).
Proof.
  intros host setting w p loginResult fields token others email created key
         Hanswers Hreply Hwritten Htokens Hemail Hmemberships Hcreated Hkey.
  apply (login_run_welcomed w p loginResult (Some (JObj fields)) _ _ Hanswers Hreply).
  exact (welcome_plain_user w (Login.address_of p) fields token others
           email created key Hwritten Htokens Hemail Hmemberships Hcreated Hkey).
Qed.

Lemma successful_login_stores_the_key_witness :
  let w := @Login.Build_World Sample.host
             (inr [("password", "pw")]) (inr (200%Z, Some Login.user)) None in
  @Login.run Sample.host Login.sample w
             (Login.params ["localhost:8170"] [("email", ["  ada  "])])
  = ([Login.Prompt [Login.ask_password];
      Login.Post "http://localhost:8170/auth"
                 [("username", "ada"); ("password", "pw");
                  ("grant_type", "password")];
      Login.Print "";
      Login.Print "Logged in to Instant.bot successfully!";
      Login.Print "email:    ada@example.org";
      Login.Print "login at: 2020-01-01";
      Login.Print "";
      Login.Store [("email", Some (JStr "ada@example.org"));
                   ("key", Some (JStr "k-123"));
                   ("host", Some (JStr "http://localhost:8170"))]],
     Value tt).
Proof.
  intros w.
  exact (successful_login_stores_the_key Sample.host Login.sample w
           (Login.params ["localhost:8170"] [("email", ["  ada  "])])
           [("password", "pw")]
           [("email", JStr "ada@example.org");
            ("accessTokens",
             JArr [JObj [("key", JStr "k-123"); ("created_at", JStr "2020-01-01")]])]
           [("key", JStr "k-123"); ("created_at", JStr "2020-01-01")]
           [] "ada@example.org" "2020-01-01" (JStr "k-123")
           eq_refl eq_refl eq_refl eq_refl eq_refl eq_refl eq_refl eq_refl).
Defined.
